(** * gtfs_kit.feed: the Feed container, its equality, copy and input/output

    A shallow embedding of [gtfs_kit/feed.py].  A [Feed] instance is its
    attribute dictionary; DataFrames live in an object store so that
    [DataFrame.copy], in-place column assignment and the aliasing between a
    feed and its copy are visible; the file system is a finite map from
    paths to nodes.  Library code (pandas CSV input/output, shutil, requests,
    pathlib parsing) and the modules of the package that [feed.py] imports
    ([constants], [helpers], [cleaners]) enter as parameters. *)

From Stdlib Require Import Ascii QArith_base.
From stdpp Require Import base tactics option strings gmap pretty functions.
From stdpp Require Import list.
Close Scope Q_scope.
Local Open Scope string_scope.
Local Open Scope nat_scope.
Local Open Scope list_scope.

(** ** Exceptions and outcomes *)

(** A path in the style of [pathlib.PurePath.parts]: the list of components. *)
Abbreviation path := (list string).

(** The pieces of an f-string: literal text, and the interpolated values the
    module formats ([{cs.DIST_UNITS}] and [{path}]). *)
Inductive fragment :=
| Lit (text : string)
| ReprList (l : list string)
| StrPath (p : path).

Inductive exn :=
| ValueError (msg : list fragment)
| KeyError (key : string)
| AttributeError (name : string)
| TypeError (name : string)
| OSError (p : path)
| LibraryError (name : string).

Inductive outcome (A : Type) :=
| Return (a : A)
| Raise (e : exn).
Arguments Return {A} a.
Arguments Raise {A} e.

Global Instance outcome_ret : MRet outcome := λ A a, Return a.
Global Instance outcome_bind : MBind outcome := λ A B f m,
  match m with
  | Return a => f a
  | Raise e => Raise e
  end.

Fixpoint mapO {A B} (f : A → outcome B) (l : list A) : outcome (list B) :=
  match l with
  | [] => Return []
  | a :: l' => b ← f a; bs ← mapO f l'; mret (b :: bs)
  end.

(** ** Cells, Series and DataFrames *)

(** A cell of a column.  [NaN] is the missing value; [VInt] an integer
    (int64 columns, and integers inside object columns); [VFloat] a finite
    float64 value, given as the rational it denotes; [VStr] text. *)
Inductive cell :=
| NaN
| VInt (z : Z)
| VFloat (q : Q)
| VStr (s : string).

Abbreviation Series := (list cell).

Definition isna (c : cell) : bool :=
  match c with NaN => true | _ => false end.

(** [Series.fillna(v)] *)
Definition fillna (v : cell) (s : Series) : Series :=
  map (λ c, if isna c then v else c) s.

(** [Series.replace(to_replace, value)] with scalar text arguments: a cell is
    replaced when it equals [to_replace] as a whole. *)
Definition replace (to_replace value : string) (s : Series) : Series :=
  map (λ c, match c with
            | VStr x => if String.eqb x to_replace then VStr value else c
            | _ => c
            end) s.

(** [Series.astype(str)] on the integers [astype(int)] produced: Python's
    [str(int)] is the decimal numeral, with a leading minus sign. *)
Definition astype_str (zs : list Z) : Series :=
  map (λ z, VStr (pretty z)) zs.

(** The row labels of a frame: the default range, or the labels
    [set_index] installed. *)
Inductive Index :=
| RangeIndex (n : nat)
| LabelIndex (name : string) (labels : Series).

(** A DataFrame, column by column, in column order. *)
Record DataFrame := mkDataFrame {
  index : Index;
  data : list (string * Series)
}.

Definition index_len (df : DataFrame) : nat :=
  match index df with
  | RangeIndex n => n
  | LabelIndex _ labels => length labels
  end.

Definition columns (df : DataFrame) : list string := (data df).*1.

(** [DataFrame.empty]: some axis has length 0. *)
Definition empty (df : DataFrame) : bool :=
  bool_decide (columns df = []) || bool_decide (index_len df = 0).

Fixpoint lookup_col (s : string) (d : list (string * Series)) : option Series :=
  match d with
  | [] => None
  | (k, v) :: d' => if decide (k = s) then Some v else lookup_col s d'
  end.

Fixpoint assign_col (s : string) (v : Series) (d : list (string * Series))
  : list (string * Series) :=
  match d with
  | [] => [(s, v)]
  | (k, x) :: d' => if decide (k = s) then (k, v) :: d' else (k, x) :: assign_col s v d'
  end.

Fixpoint remove_col (s : string) (d : list (string * Series)) : list (string * Series) :=
  match d with
  | [] => []
  | (k, x) :: d' => if decide (k = s) then d' else (k, x) :: remove_col s d'
  end.

(** [df[s]] *)
Definition getitem (df : DataFrame) (s : string) : outcome Series :=
  match lookup_col s (data df) with
  | Some v => Return v
  | None => Raise (KeyError s)
  end.

(** [df[s] = v], for a value of the frame's length. *)
Definition setitem (df : DataFrame) (s : string) (v : Series) : DataFrame :=
  {| index := index df; data := assign_col s v (data df) |}.

(** [df.set_index(key)]: the column becomes the row labels and leaves the
    columns. *)
Definition set_index (key : string) (df : DataFrame) : outcome DataFrame :=
  match lookup_col key (data df) with
  | Some v => Return {| index := LabelIndex key v; data := remove_col key (data df) |}
  | None => Raise (KeyError key)
  end.

(** The key check of [df.groupby(keys)]: every key must name a column. *)
Fixpoint groupby_check (keys : list string) (df : DataFrame) : outcome unit :=
  match keys with
  | [] => Return tt
  | k :: keys' =>
      match lookup_col k (data df) with
      | Some _ => groupby_check keys' df
      | None => Raise (KeyError k)
      end
  end.

(** ** The file system and the names of its entries *)

Inductive node :=
| File (content : string)
| Dir.

Fixpoint rfind (c : ascii) (s : string) : option nat :=
  match s with
  | EmptyString => None
  | String a s' =>
      match rfind c s' with
      | Some i => Some (S i)
      | None => if Ascii.eqb a c then Some 0 else None
      end
  end.

Fixpoint string_take (n : nat) (s : string) : string :=
  match n, s with
  | S n', String a s' => String a (string_take n' s')
  | _, _ => EmptyString
  end.

Fixpoint string_drop (n : nat) (s : string) : string :=
  match n, s with
  | S n', String _ s' => string_drop n' s'
  | _, _ => s
  end.

(** The position at which [pathlib] splits a name into stem and suffix:
    [i = name.rfind('.')] when [0 < i < len(name) - 1]. *)
Definition split_point (name : string) : option nat :=
  match rfind "."%char name with
  | Some i =>
      if bool_decide (0 < i) && bool_decide (i < String.length name - 1)
      then Some i else None
  | None => None
  end.

(** [PurePath.suffix] and [PurePath.stem], on the final component. *)
Definition suffix (name : string) : string :=
  match split_point name with
  | Some i => string_drop i name
  | None => ""
  end.

Definition stem (name : string) : string :=
  match split_point name with
  | Some i => string_take i name
  | None => name
  end.

(** [PurePath.name] and [PurePath.parent] on the components. *)
Definition name (p : path) : string := default "" (last p).
Definition parent (p : path) : path := removelast p.

(** ** The environment of the module

    [feed.py] imports [constants] as [cs], [helpers] as [hp] and [cleaners]
    as [cn]; none of them is part of the sources at hand, so what the module
    uses of them is a parameter, and so is the library code it calls.  A
    library function that can raise returns the name of the exception on the
    left. *)

(** Modelled from the spec: the table slots of a feed, which section 3 of
    the specification lists; they are also the keyword parameters of
    [Feed.__init__] after [dist_units], in this order. *)
Definition tables : list string :=
  ["agency"; "stops"; "routes"; "trips"; "stop_times"; "calendar";
   "calendar_dates"; "fare_attributes"; "fare_rules"; "shapes";
   "frequencies"; "transfers"; "feed_info"].

(** The parameters of [Feed.__init__], in the order of the signature. *)
Definition init_params : list string := "dist_units" :: tables.

(** The derived attributes set by the property setters. *)
Definition FEED_ATTRS_2 : list string :=
  ["_trips_i"; "_calendar_i"; "_calendar_dates_g"].

Class Environment := {
  (** [cs.DIST_UNITS] *)
  DIST_UNITS : list string;
  (** [cs.INT_COLS] *)
  INT_COLS : list string;
  (** [cs.FEED_ATTRS_1]: [dist_units] and the table slots, in an order the
      sources at hand do not show. *)
  FEED_ATTRS_1 : list string;
  FEED_ATTRS_1_perm : FEED_ATTRS_1 ≡ₚ init_params;
  (** [cs.GTFS_REF["table"].unique()]: the table names of the registry. *)
  GTFS_TABLES : list string;
  GTFS_TABLES_perm : GTFS_TABLES ≡ₚ tables;
  (** [hp.almost_equal] *)
  almost_equal : DataFrame → DataFrame → bool;
  (** [cn.clean_column_names] *)
  clean_column_names : DataFrame → DataFrame;
  (** [pd.read_csv(p, dtype=cs.DTYPE, encoding="utf-8-sig")] on the bytes of
      the file *)
  read_csv : string → string + DataFrame;
  (** [DataFrame.to_csv(index=False, float_format="%.{ndigits}f")]: the text
      written *)
  to_csv : nat → DataFrame → string;
  (** the builtin [int] on text *)
  py_int : string → option Z;
  (** [shutil.unpack_archive(.., "zip")]: the members of the archive, with
      their paths relative to the extraction directory *)
  unpack_archive : string → string + list (path * node);
  (** [shutil.make_archive(.., format="zip")]: the bytes of the archive of
      the given members *)
  make_archive : list (path * node) → string;
  (** [requests.head(url).ok] *)
  requests_head : string → string + bool;
  (** [requests.get(url)._content] *)
  requests_get : string → string + string;
  (** [pathlib.Path(s)] *)
  Path : string → path
}.

Definition from_library {A} (r : string + A) : outcome A :=
  match r with
  | inl e => Raise (LibraryError e)
  | inr a => Return a
  end.

(** ** Integer-flagged columns *)

(** What [astype(int)] does to one cell: integers stay, floats are truncated
    toward zero, text goes through [int()], a missing value cannot be
    cast. *)
Definition int_of_cell `{Environment} (c : cell) : outcome Z :=
  match c with
  | NaN => Raise (LibraryError "IntCastingNaNError")
  | VInt z => Return z
  | VFloat q => Return (Z.quot (Qnum q) (Zpos (Qden q)))
  | VStr s =>
      match py_int s with
      | Some z => Return z
      | None => Raise (LibraryError "ValueError")
      end
  end.

Definition astype_int `{Environment} (s : Series) : outcome (list Z) :=
  mapO int_of_cell s.

(** The right-hand side of the assignment in [Feed.write]:
    [f[s].fillna(-1).astype(int).astype(str).replace("-1", "")]. *)
Definition int_text `{Environment} (s : Series) : outcome Series :=
  zs ← astype_int (fillna (VInt (-1)) s);
  mret (replace "-1" "" (astype_str zs)).

(** [set(cs.INT_COLS) & set(f.columns)], taken in column order. *)
Definition f_int_cols `{Environment} (df : DataFrame) : list string :=
  filter (λ c, c ∈ INT_COLS) (remove_dups (columns df)).

(** ** The state: an object store for DataFrames, and the disk *)

Definition loc := nat.

Record World := mkWorld {
  next : loc;
  frames : loc → DataFrame;
  disk : gmap path node
}.

(** Computations read and change the world, and return or raise; the world
    survives an exception. *)
Definition M (A : Type) : Type := World → outcome A * World.

Global Instance M_ret : MRet M := λ A a w, (Return a, w).
Global Instance M_bind : MBind M := λ A B f m w,
  match m w with
  | (Return a, w') => f a w'
  | (Raise e, w') => (Raise e, w')
  end.

Definition raise {A} (e : exn) : M A := λ w, (Raise e, w).
Definition lift {A} (o : outcome A) : M A := λ w, (o, w).

Fixpoint for_each {A} (xs : list A) (body : A → M unit) : M unit :=
  match xs with
  | [] => mret tt
  | x :: xs' => body x;; for_each xs' body
  end.

(** A new DataFrame object. *)
Definition new_frame (df : DataFrame) : M loc := λ w,
  (Return (next w),
   {| next := S (next w); frames := <[next w := df]> (frames w); disk := disk w |}).

(** The identity of a new object that holds no frame of its own. *)
Definition new_id : M loc := λ w,
  (Return (next w),
   {| next := S (next w); frames := frames w; disk := disk w |}).

Definition deref (l : loc) : M DataFrame := λ w, (Return (frames w l), w).

(** In-place change of the object at [l]. *)
Definition store (l : loc) (df : DataFrame) : M unit := λ w,
  (Return tt,
   {| next := next w; frames := <[l := df]> (frames w); disk := disk w |}).

(** [DataFrame.copy()] *)
Definition frame_copy (l : loc) : M loc := df ← deref l; new_frame df.

(** ** Values and attributes *)

(** A [DataFrameGroupBy]: it keeps a reference to the frame it groups. *)
Record GroupBy := mkGroupBy {
  gb_id : loc;
  gb_obj : loc;
  gb_keys : list string
}.

Inductive value :=
| PyNone
| PyStr (s : string)
| PyFrame (l : loc)
| PyGroupBy (g : GroupBy).

(** A Feed instance: its attribute dictionary. *)
Abbreviation Feed := (gmap string value).

(** The attributes defined with [@property]; each one is stored under its
    name with a leading underscore. *)
Definition properties : list string :=
  ["dist_units"; "trips"; "calendar"; "calendar_dates"].

Definition getattr (self : Feed) (attr : string) : M value :=
  let key := if decide (attr ∈ properties) then "_" +:+ attr else attr in
  match self !! key with
  | Some v => mret v
  | None => raise (AttributeError attr)
  end.

(** [bool(df)] for a DataFrame [df]. *)
Definition truth_value_error : exn :=
  ValueError [Lit "The truth value of a DataFrame is ambiguous. Use a.empty, a.bool(), a.item(), a.any() or a.all()."].

(** [val in l] for a list of strings [l]: the elements are compared with
    [==]; against a DataFrame the comparison is element-wise and its truth
    value raises. *)
Definition py_in (val : value) (l : list string) : M bool :=
  match val with
  | PyStr s => mret (bool_decide (s ∈ l))
  | PyFrame _ => if l is [] then mret false else raise truth_value_error
  | _ => mret false
  end.

Definition set_dist_units `{Environment} (self : Feed) (val : value) : M Feed :=
  b ← py_in val DIST_UNITS;
  if negb b then
    raise (ValueError [Lit "Distance units are required and must lie in ";
                       ReprList DIST_UNITS])
  else mret (<["_dist_units" := val]> self).

(** [val is not None and not val.empty] *)
Definition present_and_nonempty (val : value) : M bool :=
  match val with
  | PyNone => mret false
  | PyFrame l => df ← deref l; mret (negb (empty df))
  | _ => raise (AttributeError "empty")
  end.

(** [v.set_index(key)] *)
Definition method_set_index (v : value) (key : string) : M value :=
  match v with
  | PyFrame l =>
      df ← deref l; df' ← lift (set_index key df);
      l' ← new_frame df'; mret (PyFrame l')
  | _ => raise (AttributeError "set_index")
  end.

(** [v.groupby(keys)] *)
Definition method_groupby (v : value) (keys : list string) : M value :=
  match v with
  | PyFrame l =>
      df ← deref l; lift (groupby_check keys df);;
      i ← new_id;
      mret (PyGroupBy {| gb_id := i; gb_obj := l; gb_keys := keys |})
  | _ => raise (AttributeError "groupby")
  end.

Definition set_trips (self : Feed) (val : value) : M Feed :=
  let self := <["_trips" := val]> self in
  b ← present_and_nonempty val;
  if (b : bool) then
    i ← method_set_index val "trip_id"; mret (<["_trips_i" := i]> self)
  else mret (<["_trips_i" := PyNone]> self).

Definition set_calendar (self : Feed) (val : value) : M Feed :=
  let self := <["_calendar" := val]> self in
  b ← present_and_nonempty val;
  if (b : bool) then
    i ← method_set_index val "service_id"; mret (<["_calendar_i" := i]> self)
  else mret (<["_calendar_i" := PyNone]> self).

Definition set_calendar_dates (self : Feed) (val : value) : M Feed :=
  let self := <["_calendar_dates" := val]> self in
  b ← present_and_nonempty val;
  if (b : bool) then
    g ← method_groupby val ["service_id"; "date"];
    mret (<["_calendar_dates_g" := g]> self)
  else mret (<["_calendar_dates_g" := PyNone]> self).

(** [setattr(self, attr, val)]: a property runs its setter, any other name
    is stored in the dictionary. *)
Definition setattr `{Environment} (self : Feed) (attr : string) (val : value)
  : M Feed :=
  if decide (attr = "dist_units") then set_dist_units self val
  else if decide (attr = "trips") then set_trips self val
  else if decide (attr = "calendar") then set_calendar self val
  else if decide (attr = "calendar_dates") then set_calendar_dates self val
  else mret (<[attr := val]> self).

(** The loop of [__init__] over [locals().items()]: the parameters in
    signature order, each with the argument passed or the default [None]. *)
Fixpoint init_loop `{Environment} (params : list string)
    (kwargs : gmap string value) (self : Feed) : M Feed :=
  match params with
  | [] => mret self
  | prop :: params' =>
      let val := default PyNone (kwargs !! prop) in
      if decide (prop ∈ FEED_ATTRS_1) then
        self' ← setattr self prop val; init_loop params' kwargs self'
      else init_loop params' kwargs self
  end.

(** A call of [Feed] with keyword arguments: the call binds the arguments (an unknown keyword or a
    missing [dist_units] is a [TypeError]), then [__init__] runs on a new
    instance. *)
Definition __init__ `{Environment} (kwargs : gmap string value) : M Feed :=
  if decide (dom kwargs ⊆ list_to_set init_params) then
    if decide (is_Some (kwargs !! "dist_units")) then init_loop init_params kwargs ∅
    else raise (TypeError "missing a required argument: 'dist_units'")
  else raise (TypeError "got an unexpected keyword argument").

(** [x != y] when [x] is not a DataFrame.  Against a DataFrame [y] the
    comparison is the frame's element-wise [!=], whose truth value raises;
    group-by objects compare by identity. *)
Definition py_ne (x y : value) : M bool :=
  match x, y with
  | _, PyFrame _ => raise truth_value_error
  | PyNone, PyNone => mret false
  | PyStr a, PyStr b => mret (negb (String.eqb a b))
  | PyGroupBy g, PyGroupBy h => mret (negb (Nat.eqb (gb_id g) (gb_id h)))
  | _, _ => mret true
  end.

Fixpoint eq_loop `{Environment} (keys : list string) (self other : Feed) : M bool :=
  match keys with
  | [] => mret true
  | key :: keys' =>
      x ← getattr self key;
      y ← getattr other key;
      match x with
      | PyFrame lx =>
          match y with
          | PyFrame ly =>
              fx ← deref lx; fy ← deref ly;
              if almost_equal fx fy then eq_loop keys' self other else mret false
          | _ => mret false
          end
      | _ =>
          b ← py_ne x y;
          if (b : bool) then mret false else eq_loop keys' self other
      end
  end.

(** [Feed.__eq__] *)
Definition __eq__ `{Environment} (self other : Feed) : M bool :=
  eq_loop FEED_ATTRS_1 self other.




(** ** Disk operations *)

Definition set_disk (d : gmap path node) (w : World) : World :=
  {| next := next w; frames := frames w; disk := d |}.

(** [Path.exists()] *)
Definition path_exists (p : path) : M bool := λ w,
  (Return (bool_decide (is_Some (disk w !! p))), w).

(** [Path.is_file()] *)
Definition is_file (p : path) : M bool := λ w,
  (Return (match disk w !! p with Some (File _) => true | _ => false end), w).

Definition read_bytes (p : path) : M string := λ w,
  match disk w !! p with
  | Some (File c) => (Return c, w)
  | _ => (Raise (OSError p), w)
  end.

(** [Path.mkdir()]: the parent must be a directory and the path new. *)
Definition mkdir (p : path) : M unit := λ w,
  match disk w !! parent p, disk w !! p with
  | Some Dir, None => (Return tt, set_disk (<[p := Dir]> (disk w)) w)
  | _, _ => (Raise (OSError p), w)
  end.

(** Creating or overwriting the file [p] with the text [c]. *)
Definition write_text (p : path) (c : string) : M unit := λ w,
  match disk w !! parent p, disk w !! p with
  | Some Dir, Some Dir => (Raise (OSError p), w)
  | Some Dir, _ => (Return tt, set_disk (<[p := File c]> (disk w)) w)
  | _, _ => (Raise (OSError p), w)
  end.

Definition child_name (d p : path) : option string :=
  match last p with
  | Some n => if decide (p = d ++ [n]) then Some n else None
  | None => None
  end.

(** The entries directly inside [d], by name. *)
Definition listing (d : path) (fs : gmap path node) : list (string * node) :=
  omap (λ pn, n ← child_name d pn.1; Some (n, pn.2)) (map_to_list fs).

(** [Path.iterdir()] *)
Definition iterdir (d : path) : M (list (string * node)) := λ w,
  (Return (listing d (disk w)), w).

Fixpoint strip_prefix (pre l : path) : option path :=
  match pre, l with
  | [], _ => Some l
  | a :: pre', b :: l' => if decide (a = b) then strip_prefix pre' l' else None
  | _ :: _, [] => None
  end.

(** A name under which nothing exists yet, as [tempfile] picks one: no path
    on the disk starts with it. *)
Definition fresh_name (d : gmap path node) : path :=
  [fresh (list_to_set (omap head (map_to_list d).*1) : gset string)].

(** [tempfile.TemporaryDirectory()]; the result stands for [tmp_dir.name]. *)
Definition TemporaryDirectory : M path := λ w,
  let p := fresh_name (disk w) in
  (Return p, set_disk (<[p := Dir]> (disk w)) w).

(** [tmp_dir.cleanup()]: the directory and everything below it go. *)
Definition cleanup (tmp : path) : M unit := λ w,
  (Return tt,
   set_disk (filter (λ pn, strip_prefix tmp pn.1 = None) (disk w)) w).

(** The members of an archive land below the extraction directory. *)
Definition extract (extract_dir : path) (members : list (path * node)) : M unit := λ w,
  (Return tt,
   set_disk (foldr (λ m acc, <[extract_dir ++ m.1 := m.2]> acc)
                   (disk w) members) w).

(** [shutil.unpack_archive(str(path), extract_dir, "zip")] *)
Definition shutil_unpack_archive `{Environment} (archive extract_dir : path)
  : M unit :=
  c ← read_bytes archive;
  members ← lift (from_library (unpack_archive c));
  extract extract_dir members.

(** [os.makedirs]: the path and its missing ancestors become directories;
    [None] when a file is in the way. *)
Fixpoint makedirs_from (base : path) (rest : list string) (d : gmap path node)
  : option (gmap path node) :=
  match rest with
  | [] => Some d
  | c :: rest' =>
      let p := base ++ [c] in
      match d !! p with
      | Some (File _) => None
      | Some Dir => makedirs_from p rest' d
      | None => makedirs_from p rest' (<[p := Dir]> d)
      end
  end.

Definition makedirs (p : path) : M unit := λ w,
  match makedirs_from [] p (disk w) with
  | Some d => (Return tt, set_disk d w)
  | None => (Raise (OSError p), w)
  end.

Definition members_under (root : path) (d : gmap path node) : list (path * node) :=
  omap (λ pn, match strip_prefix root pn.1 with
              | Some (c :: rel) => Some (c :: rel, pn.2)
              | _ => None
              end) (map_to_list d).

Definition list_members (root : path) : M (list (path * node)) := λ w,
  (Return (members_under root (disk w)), w).

(** [shutil.make_archive(str(path.parent / path.stem), format="zip",
    root_dir=tmp)]: the archive directory is created when it is named and
    missing, then the archive [<base>.zip] is written. *)
Definition shutil_make_archive `{Environment} (dest root_dir : path) : M unit :=
  let archive_dir := parent dest in
  ex ← path_exists archive_dir;
  (if bool_decide (archive_dir ≠ []) && negb ex then makedirs archive_dir
   else mret tt);;
  members ← list_members root_dir;
  write_text (archive_dir ++ [stem (name dest) +:+ ".zip"])
             (make_archive members).


(** ** Writing a feed *)

(** One column of the loop [for s in f_int_cols: f[s] = ...], on the frame
    object [l]. *)
Definition coerce_column `{Environment} (l : loc) (s : string) : M unit :=
  df ← deref l;
  col ← lift (getitem df s);
  col' ← lift (int_text col);
  store l (setitem df s col').

(** The body of the loop over the tables in [Feed.write]. *)
Definition write_table `{Environment} (self : Feed) (new_path : path)
    (ndigits : nat) (table : string) : M unit :=
  f ← getattr self table;
  match f with
  | PyNone => mret tt
  | PyFrame l =>
      l' ← frame_copy l;
      df ← deref l';
      for_each (f_int_cols df) (coerce_column l');;
      df' ← deref l';
      write_text (new_path ++ [table +:+ ".txt"]) (to_csv ndigits df')
  | _ => raise (AttributeError "copy")
  end.

(** [Feed.write] *)
Definition write `{Environment} (self : Feed) (path : path) (ndigits : nat)
  : M unit :=
  if decide (suffix (name path) = ".zip") then
    tmp ← TemporaryDirectory;
    for_each GTFS_TABLES (write_table self tmp ndigits);;
    shutil_make_archive path tmp;;
    cleanup tmp
  else
    ex ← path_exists path;
    (if negb ex then mkdir path else mret tt);;
    for_each GTFS_TABLES (write_table self path ndigits).

(** ** Reading a feed *)

(** The loop over [src_path.iterdir()] in [_read_feed_from_path]. *)
Fixpoint read_tables `{Environment} (entries : list (string * node))
    (feed_dict : gmap string value) : M (gmap string value) :=
  match entries with
  | [] => mret feed_dict
  | (p, n) :: entries' =>
      let table := stem p in
      match n with
      | File c =>
          if bool_decide (String.length c ≠ 0)
             && bool_decide (suffix p = ".txt")
             && bool_decide (is_Some (feed_dict !! table))
          then
            df ← lift (from_library (read_csv c));
            if negb (empty df) then
              l ← new_frame (clean_column_names df);
              read_tables entries' (<[table := PyFrame l]> feed_dict)
            else read_tables entries' feed_dict
          else read_tables entries' feed_dict
      | Dir => read_tables entries' feed_dict
      end
  end.

Definition _read_feed_from_path `{Environment} (path : path) (dist_units : string)
  : M Feed :=
  ex ← path_exists path;
  if negb ex then
    raise (ValueError [Lit "Path "; StrPath path; Lit " does not exist"])
  else
    isf ← is_file path;
    '(zipped, src_path) ←
      (if (isf : bool) then
         tmp ← TemporaryDirectory;
         shutil_unpack_archive path tmp;;
         mret (true, tmp)
       else mret (false, path));
    entries ← iterdir src_path;
    feed_dict ← read_tables entries
                  (list_to_map ((λ t, (t, PyNone)) <$> GTFS_TABLES));
    let feed_dict := <["dist_units" := PyStr dist_units]> feed_dict in
    (if (zipped : bool) then cleanup src_path else mret tt);;
    __init__ feed_dict.



(** ** A small environment to run the definitions

    [demo] fixes the parameters on a handful of inputs, as the libraries
    behave on them, so that the definitions can be evaluated: a one-column
    agency table with one row or none and the text [to_csv] writes for each;
    [requests] refusing a string without a URL scheme; an archive reader
    that rejects every input that does not start with the zip signature. *)

Global Instance Q_eq_dec : EqDecision Q.
Proof. solve_decision. Defined.
Global Instance cell_eq_dec : EqDecision cell.
Proof. solve_decision. Defined.
Global Instance Index_eq_dec : EqDecision Index.
Proof. solve_decision. Defined.
Global Instance DataFrame_eq_dec : EqDecision DataFrame.
Proof. solve_decision. Defined.

Definition nl : string := String (ascii_of_nat 10) "".

Definition agency_one : DataFrame :=
  {| index := RangeIndex 1; data := [("agency_name", [VStr "A"])] |}.
Definition agency_none : DataFrame :=
  {| index := RangeIndex 0; data := [("agency_name", [])] |}.

Definition starts_with (pre s : string) : bool :=
  String.eqb (string_take (String.length pre) s) pre.

Definition demo_read_csv (c : string) : string + DataFrame :=
  if String.eqb c ("agency_name" +:+ nl +:+ "A" +:+ nl) then inr agency_one
  else if String.eqb c ("agency_name" +:+ nl) then inr agency_none
  else inl "ParserError".

Definition demo_to_csv (ndigits : nat) (df : DataFrame) : string :=
  if decide (df = agency_one) then "agency_name" +:+ nl +:+ "A" +:+ nl
  else if decide (df = agency_none) then "agency_name" +:+ nl
  else nl.

Definition demo_unpack_archive (c : string) : string + list (path * node) :=
  if starts_with "PK" c then inr [(["stops.txt"], File (string_drop 2 c))]
  else inl "ReadError".

Definition demo_requests_head (url : string) : string + bool :=
  if starts_with "http://" url || starts_with "https://" url then inr false
  else inl "MissingSchema".

Definition demo_requests_get (url : string) : string + string :=
  if starts_with "http://" url || starts_with "https://" url
  then inl "ConnectionError"
  else inl "MissingSchema".

Fixpoint split_slash (acc s : string) : list string :=
  match s with
  | EmptyString => if String.eqb acc "" then [] else [acc]
  | String a s' =>
      if Ascii.eqb a "/"%char
      then (if String.eqb acc "" then [] else [acc]) ++ split_slash "" s'
      else split_slash (acc +:+ String a "") s'
  end.

Definition demo : Environment := {|
  DIST_UNITS := ["ft"; "mi"; "m"; "km"];
  INT_COLS := ["route_type"; "direction_id"; "stop_sequence"];
  FEED_ATTRS_1 := init_params;
  FEED_ATTRS_1_perm := reflexivity _;
  GTFS_TABLES := tables;
  GTFS_TABLES_perm := reflexivity _;
  almost_equal := λ f g, bool_decide (f = g);
  clean_column_names := id;
  read_csv := demo_read_csv;
  to_csv := demo_to_csv;
  py_int := λ _, None;
  unpack_archive := demo_unpack_archive;
  make_archive := λ _, "PK";
  requests_head := demo_requests_head;
  requests_get := demo_requests_get;
  Path := split_slash ""
|}.


Definition trips_one : DataFrame :=
  {| index := RangeIndex 1;
     data := [("trip_id", [VStr "t1"]); ("direction_id", [VInt (-1)])] |}.

(** The current directory, and two objects: an agency table and a trips
    table. *)
Definition world1 : World :=
  {| next := 2;
     frames := λ l, if decide (l = 0) then agency_one
                    else if decide (l = 1) then trips_one else agency_none;
     disk := {[ [] := Dir ]} |}.

(** The feed [Feed(dist_units="km", agency=.., trips=..)] over the two
    objects of [world1], with the index of its trips at object 2. *)
Definition feed1 : Feed :=
  list_to_map
    [("_dist_units", PyStr "km"); ("agency", PyFrame 0); ("stops", PyNone);
     ("routes", PyNone); ("_trips", PyFrame 1); ("_trips_i", PyFrame 2);
     ("stop_times", PyNone); ("_calendar", PyNone); ("_calendar_i", PyNone);
     ("_calendar_dates", PyNone); ("_calendar_dates_g", PyNone);
     ("fare_attributes", PyNone); ("fare_rules", PyNone); ("shapes", PyNone);
     ("frequencies", PyNone); ("transfers", PyNone); ("feed_info", PyNone)].

Definition trips_one_i : DataFrame :=
  {| index := LabelIndex "trip_id" [VStr "t1"];
     data := [("direction_id", [VInt (-1)])] |}.

(** [world1] after the construction of [feed1]. *)
Definition world2 : World :=
  {| next := 3;
     frames := λ l, if decide (l = 0) then agency_one
                    else if decide (l = 1) then trips_one
                    else if decide (l = 2) then trips_one_i else agency_none;
     disk := {[ [] := Dir ]} |}.

(** A bundle directory [feed] with a header-only [agency.txt], a [stops.txt]
    of size zero and a file that is no table. *)
Definition world_bundle : World :=
  {| next := 0;
     frames := λ _, agency_none;
     disk := list_to_map
       [([], Dir); (["feed"], Dir);
        (["feed"; "agency.txt"], File ("agency_name" +:+ nl));
        (["feed"; "stops.txt"], File "");
        (["feed"; "README.md"], File "notes")] |}.

(** ** Specification predicates *)

(** [raises_only P m]: every exception [m] raises satisfies [P]. *)
Definition raises_only {A} (P : exn → Prop) (m : M A) : Prop :=
  ∀ w e w', m w = (Raise e, w') → P e.

(** [respects R m]: the world after [m], returned or raised, is related by
    [R] to the world before. *)
Definition respects {A} (R : relation World) (m : M A) : Prop :=
  ∀ w, R w (m w).2.

(** Worlds that differ by allocation only: every object of [w] is unchanged
    in [w']. *)
Definition grows (w w' : World) : Prop :=
  next w ≤ next w' ∧ ∀ l, l < next w → frames w' l = frames w l.

(** The objects below [n] are the same in [w'] as in [w]. *)
Definition keeps (n : loc) (w w' : World) : Prop :=
  n ≤ next w → n ≤ next w' ∧ ∀ l, l < n → frames w' l = frames w l.

Definition same_disk (w w' : World) : Prop := disk w' = disk w.

Definition same_objects (w w' : World) : Prop :=
  next w' = next w ∧ frames w' = frames w.

(** The dictionary key under which an attribute is stored, and the keys its
    assignment may write. *)
Definition storage (attr : string) : string :=
  if decide (attr ∈ properties) then "_" +:+ attr else attr.

Definition indexed : list string := ["trips"; "calendar"; "calendar_dates"].

Definition index_attr (attr : string) : string :=
  if decide (attr = "trips") then "_trips_i"
  else if decide (attr = "calendar") then "_calendar_i"
  else "_calendar_dates_g".

Definition touched (attr : string) : list string :=
  if decide (attr ∈ indexed) then [storage attr; index_attr attr]
  else [storage attr].

(** A value refers to objects that exist in [w]. *)
Definition allocated (w : World) (v : value) : Prop :=
  match v with
  | PyFrame l => l < next w
  | PyGroupBy g => gb_id g < next w ∧ gb_obj g < next w
  | _ => True
  end.

(** [derived w attr val idx]: in the world [w], [idx] is the derived index
    that the setter of the table attribute [attr] builds from the value
    [val]: none for an absent or empty table, otherwise the frame re-indexed
    by its key column, or the grouping of the frame itself by its keys. *)
Inductive derived (w : World) : string → value → value → Prop :=
| derived_absent attr :
    derived w attr PyNone PyNone
| derived_empty attr l :
    empty (frames w l) = true →
    derived w attr (PyFrame l) PyNone
| derived_trips l li :
    empty (frames w l) = false → li ≠ l →
    set_index "trip_id" (frames w l) = Return (frames w li) →
    derived w "trips" (PyFrame l) (PyFrame li)
| derived_calendar l li :
    empty (frames w l) = false → li ≠ l →
    set_index "service_id" (frames w l) = Return (frames w li) →
    derived w "calendar" (PyFrame l) (PyFrame li)
| derived_calendar_dates l g :
    empty (frames w l) = false →
    groupby_check ["service_id"; "date"] (frames w l) = Return tt →
    gb_obj g = l → gb_keys g = ["service_id"; "date"] →
    derived w "calendar_dates" (PyFrame l) (PyGroupBy g).

(** The columns the setter of an indexed attribute needs. *)
Definition key_columns (attr : string) : list string :=
  if decide (attr = "trips") then ["trip_id"]
  else if decide (attr = "calendar") then ["service_id"]
  else if decide (attr = "calendar_dates") then ["service_id"; "date"]
  else [].

(** A value a table attribute can take without its setter raising: the
    absence marker, or a frame that is empty or has the key columns. *)
Definition assignable (w : World) (attr : string) (val : value) : Prop :=
  match val with
  | PyNone => True
  | PyFrame l =>
      attr ∈ indexed → empty (frames w l) = false →
      key_columns attr ⊆ columns (frames w l)
  | _ => attr ∉ properties
  end.

(** The common shape of the three property setters with a derived index. *)
Definition set_indexed (store_key index_key : string) (build : value → M value)
    (self : Feed) (val : value) : M Feed :=
  let self := <[store_key := val]> self in
  b ← present_and_nonempty val;
  if (b : bool) then i ← build val; mret (<[index_key := i]> self)
  else mret (<[index_key := PyNone]> self).

(** What builds the derived index of an indexed table attribute. *)
Definition build_index (attr : string) (val : value) : M value :=
  if decide (attr = "calendar_dates") then method_groupby val ["service_id"; "date"]
  else if decide (attr = "calendar") then method_set_index val "service_id"
  else method_set_index val "trip_id".





(** [v'] in [w'] is a duplicate of [v] in [w] made of objects that did not
    exist in [w]. *)
Definition copy_of (w w' : World) (v v' : value) : Prop :=
  match v with
  | PyFrame l =>
      ∃ l', v' = PyFrame l' ∧ next w ≤ l' < next w' ∧ frames w' l' = frames w l
  | PyGroupBy g =>
      ∃ g', v' = PyGroupBy g' ∧ next w ≤ gb_id g' < next w' ∧
            next w ≤ gb_obj g' < next w' ∧ gb_keys g' = gb_keys g ∧
            frames w' (gb_obj g') = frames w (gb_obj g)
  | _ => v' = v
  end.









Definition is_Return {A} (o : outcome A) : bool :=
  match o with Return _ => true | Raise _ => false end.

(** The current directory with a file [feed.zip] that is no archive, and
    with an archive [bad.zip] whose only member, [stops.txt], is not
    well-formed CSV. *)
Definition world_archives : World :=
  {| next := 0;
     frames := λ _, agency_none;
     disk := list_to_map
       [([], Dir); (["feed.zip"], File "not an archive");
        (["bad.zip"], File "PKstop_id,stop_name")] |}.

(** The world after [tempfile.TemporaryDirectory()] and
    [shutil.unpack_archive] of the bytes [c] into the new directory. *)
Definition unpacked `{Environment} (members : list (path * node)) (w : World)
  : World :=
  (extract (fresh_name (disk w)) members (TemporaryDirectory w).2).2.









(** ** Properties *)

(** *** Running computations *)

Lemma bind_run {A B} (m : M A) (f : A → M B) (w : World) :
  (m ≫= f) w =
  match m w with
  | (Return a, w') => f a w'
  | (Raise e, w') => (Raise e, w')
  end.
Proof. reflexivity. Qed.

Lemma bind_Return {A B} (m : M A) (f : A → M B) w a w' :
  m w = (Return a, w') → (m ≫= f) w = f a w'.
Proof. intros E. by rewrite bind_run, E. Qed.

Lemma bind_Raise {A B} (m : M A) (f : A → M B) w e w' :
  m w = (Raise e, w') → (m ≫= f) w = (Raise e, w').
Proof. intros E. by rewrite bind_run, E. Qed.

Lemma bind_inv {A B} (m : M A) (f : A → M B) w b w2 :
  (m ≫= f) w = (Return b, w2) →
  ∃ a w1, m w = (Return a, w1) ∧ f a w1 = (Return b, w2).
Proof.
  rewrite bind_run. destruct (m w) as [[a|e] w1]; [eauto | discriminate].
Qed.

Section combinators.
Context {A B : Type}.
Implicit Types (P : exn → Prop) (R : relation World).

Lemma raises_only_mret P (a : A) : raises_only P (mret a).
Proof. intros w e w' E. discriminate. Qed.



Lemma raises_only_bind P (m : M A) (f : A → M B) :
  raises_only P m → (∀ a, raises_only P (f a)) → raises_only P (m ≫= f).
Proof.
  intros Hm Hf w e w'. rewrite bind_run.
  destruct (m w) as [[a|e1] w1] eqn:E.
  - apply Hf.
  - intros [= <- <-]. by eapply Hm.
Qed.


Lemma respects_mret R `{!Reflexive R} (a : A) : respects R (mret a).
Proof. intros w. simpl. reflexivity. Qed.

Lemma respects_raise R `{!Reflexive R} e : respects (A:=A) R (raise e).
Proof. intros w. simpl. reflexivity. Qed.

Lemma respects_lift R `{!Reflexive R} (o : outcome A) : respects R (lift o).
Proof. intros w. simpl. reflexivity. Qed.

Lemma respects_bind R `{!Transitive R} (m : M A) (f : A → M B) :
  respects R m → (∀ a, respects R (f a)) → respects R (m ≫= f).
Proof.
  intros Hm Hf w. rewrite bind_run. specialize (Hm w).
  destruct (m w) as [[a|e] w1]; simpl in *; [|done].
  etrans; [exact Hm | apply Hf].
Qed.
End combinators.

Lemma raises_only_for_each {A} P (xs : list A) (body : A → M unit) :
  (∀ x, raises_only P (body x)) → raises_only P (for_each xs body).
Proof.
  intros Hb. induction xs as [|x xs IH]; simpl.
  - apply raises_only_mret.
  - apply raises_only_bind; auto.
Qed.

Lemma respects_for_each {A} R `{!PreOrder R} (xs : list A) (body : A → M unit) :
  (∀ x, x ∈ xs → respects R (body x)) → respects R (for_each xs body).
Proof.
  induction xs as [|x xs IH]; intros Hb; simpl.
  - apply respects_mret, _.
  - apply respects_bind; [apply _ | apply Hb; left | intros _; apply IH].
    intros y Hy. apply Hb. by right.
Qed.

Global Instance grows_preorder : PreOrder grows.
Proof.
  split.
  - intros w. split; [lia | done].
  - intros w1 w2 w3 [H1 H1'] [H2 H2']. split; [lia |].
    intros l Hl. rewrite H2' by lia. by apply H1'.
Qed.

Global Instance keeps_preorder n : PreOrder (keeps n).
Proof.
  split.
  - intros w Hn. split; [lia | done].
  - intros w1 w2 w3 H1 H2 Hn. destruct (H1 Hn) as [Hn2 H1'].
    destruct (H2 Hn2) as [Hn3 H2']. split; [done |].
    intros l Hl. rewrite H2' by done. by apply H1'.
Qed.

Global Instance same_disk_preorder : PreOrder same_disk.
Proof.
  split; [by intros w | intros w1 w2 w3 H1 H2]. unfold same_disk in *. congruence.
Qed.

Global Instance same_objects_preorder : PreOrder same_objects.
Proof.
  split; [by intros w | intros w1 w2 w3 [H1 H1'] [H2 H2']].
  split; congruence.
Qed.

Lemma grows_keeps n w w' : grows w w' → keeps n w w'.
Proof.
  intros [Hn Hf] Hle. split; [lia |]. intros l Hl. apply Hf. lia.
Qed.

(** *** What the primitives raise and change *)

Section primitives.
Context `{Environment}.
Implicit Types (P : exn → Prop) (self : Feed) (val : value).

Lemma getattr_run self attr w :
  getattr self attr w =
  match self !! (if decide (attr ∈ properties) then "_" +:+ attr else attr) with
  | Some v => (Return v, w)
  | None => (Raise (AttributeError attr), w)
  end.
Proof. unfold getattr. by destruct (self !! _). Qed.

Lemma respects_eq_getattr self attr : respects eq (getattr self attr).
Proof. intros w. rewrite getattr_run. by destruct (self !! _). Qed.

Lemma new_frame_grows df : respects grows (new_frame df).
Proof.
  intros w. split; simpl; [lia |].
  intros l Hl. apply fn_lookup_insert_ne. lia.
Qed.

Lemma new_id_grows : respects grows new_id.
Proof. intros w. split; simpl; [lia | done]. Qed.

Lemma deref_grows l : respects grows (deref l).
Proof. intros w. simpl. reflexivity. Qed.

Lemma frame_copy_grows l : respects grows (frame_copy l).
Proof.
  apply respects_bind; [apply _ | apply deref_grows | intros df; apply new_frame_grows].
Qed.

Lemma present_and_nonempty_grows val : respects grows (present_and_nonempty val).
Proof.
  destruct val; simpl; try (apply respects_mret, _); try (apply respects_raise, _).
  apply respects_bind; [apply _ | apply deref_grows |].
  intros df. apply respects_mret, _.
Qed.

Lemma method_set_index_grows val key : respects grows (method_set_index val key).
Proof.
  destruct val; simpl; try (apply respects_raise, _).
  apply respects_bind; [apply _ | apply deref_grows | intros df].
  apply respects_bind; [apply _ | apply respects_lift, _ | intros df'].
  apply respects_bind; [apply _ | apply new_frame_grows | intros l'].
  apply respects_mret, _.
Qed.

Lemma method_groupby_grows val keys : respects grows (method_groupby val keys).
Proof.
  destruct val; simpl; try (apply respects_raise, _).
  apply respects_bind; [apply _ | apply deref_grows | intros df].
  apply respects_bind; [apply _ | apply respects_lift, _ | intros _].
  apply respects_bind; [apply _ | apply new_id_grows | intros i].
  apply respects_mret, _.
Qed.

Lemma py_in_eq val l : respects eq (py_in val l).
Proof. intros w. destruct val as [| | |]; try done. by destruct l. Qed.

Lemma setattr_grows self attr val : respects grows (setattr self attr val).
Proof.
  unfold setattr. repeat case_decide.
  - intros w. unfold set_dist_units. rewrite bind_run.
    pose proof (py_in_eq val DIST_UNITS w) as E.
    destruct (py_in val DIST_UNITS w) as [[b|e] w1]; simpl in E; subst w1;
      [destruct b|]; simpl; reflexivity.
  - apply respects_bind; [apply _ | apply present_and_nonempty_grows | intros [|]].
    + apply respects_bind; [apply _ | apply method_set_index_grows | intros i].
      apply respects_mret, _.
    + apply respects_mret, _.
  - apply respects_bind; [apply _ | apply present_and_nonempty_grows | intros [|]].
    + apply respects_bind; [apply _ | apply method_set_index_grows | intros i].
      apply respects_mret, _.
    + apply respects_mret, _.
  - apply respects_bind; [apply _ | apply present_and_nonempty_grows | intros [|]].
    + apply respects_bind; [apply _ | apply method_groupby_grows | intros i].
      apply respects_mret, _.
    + apply respects_mret, _.
  - apply respects_mret, _.
Qed.

Lemma init_loop_grows params kwargs self :
  respects grows (init_loop params kwargs self).
Proof.
  revert self. induction params as [|prop params IH]; intros self; simpl.
  - apply respects_mret, _.
  - case_decide; [|apply IH].
    apply respects_bind; [apply _ | apply setattr_grows | intros self'; apply IH].
Qed.

Lemma init_grows kwargs : respects grows (__init__ kwargs).
Proof.
  unfold __init__. repeat case_decide; try (apply respects_raise, _).
  apply init_loop_grows.
Qed.
End primitives.

(** *** Columns *)

Lemma lookup_col_Some_elem s d v : lookup_col s d = Some v → s ∈ d.*1.
Proof.
  induction d as [|[k x] d IH]; simpl; [done |].
  case_decide; [intros _; subst; left | intros E; right; auto].
Qed.

Lemma lookup_col_elem s d : s ∈ d.*1 → is_Some (lookup_col s d).
Proof.
  induction d as [|[k x] d IH]; simpl.
  - by intros ?%elem_of_nil.
  - intros [->|Hs]%elem_of_cons; case_decide; eauto; congruence.
Qed.

Lemma set_index_Return key df :
  key ∈ columns df → ∃ df', set_index key df = Return df'.
Proof.
  intros [v Hv]%lookup_col_elem. unfold set_index. rewrite Hv. eauto.
Qed.

Lemma set_index_Return_inv key df df' :
  set_index key df = Return df' → key ∈ columns df.
Proof.
  unfold set_index. destruct (lookup_col key (data df)) eqn:E; [|done].
  intros _. by eapply lookup_col_Some_elem.
Qed.

Lemma groupby_check_Return keys df :
  keys ⊆ columns df → groupby_check keys df = Return tt.
Proof.
  induction keys as [|k keys IH]; intros Hk; simpl; [done |].
  destruct (lookup_col_elem k (data df)) as [v ->].
  - apply Hk. left.
  - apply IH. intros x Hx. apply Hk. by right.
Qed.

Lemma groupby_check_Return_inv keys df :
  groupby_check keys df = Return tt → keys ⊆ columns df.
Proof.
  induction keys as [|k keys IH]; simpl; [intros _ x ?%elem_of_nil; done |].
  destruct (lookup_col k (data df)) eqn:E; [|done].
  intros Hk x [->|Hx]%elem_of_cons; [by eapply lookup_col_Some_elem | by apply IH].
Qed.

(** *** The property setters *)

Section setters.
Context `{Environment}.
Implicit Types (self : Feed) (val idx : value).

Lemma present_and_nonempty_run val w :
  present_and_nonempty val w =
  match val with
  | PyNone => (Return false, w)
  | PyFrame l => (Return (negb (empty (frames w l))), w)
  | _ => (Raise (AttributeError "empty"), w)
  end.
Proof. by destruct val. Qed.

Lemma set_indexed_run sk ik build self val w :
  set_indexed sk ik build self val w =
  match val with
  | PyNone => (Return (<[ik := PyNone]> (<[sk := val]> self)), w)
  | PyFrame l =>
      if empty (frames w l)
      then (Return (<[ik := PyNone]> (<[sk := val]> self)), w)
      else match build val w with
           | (Return i, w') => (Return (<[ik := i]> (<[sk := val]> self)), w')
           | (Raise e, w') => (Raise e, w')
           end
  | _ => (Raise (AttributeError "empty"), w)
  end.
Proof.
  unfold set_indexed. rewrite bind_run, present_and_nonempty_run.
  destruct val as [| |l|]; try done.
  destruct (empty (frames w l)); simpl; [done |].
  rewrite bind_run. by destruct (build (PyFrame l) w) as [[i|e] w'].
Qed.

Lemma setattr_indexed self attr val :
  attr ∈ indexed →
  setattr self attr val =
  set_indexed (storage attr) (index_attr attr) (build_index attr) self val.
Proof.
  intros Ha. unfold indexed in Ha.
  repeat (apply elem_of_cons in Ha as [->|Ha]); [done.. |].
  by apply elem_of_nil in Ha.
Qed.

Lemma setattr_plain self attr val w :
  attr ∉ properties →
  setattr self attr val w = (Return (<[attr := val]> self), w).
Proof.
  intros Ha. unfold setattr.
  repeat case_decide; subst; try done; exfalso; apply Ha; unfold properties;
    set_solver.
Qed.

Lemma storage_plain attr : attr ∉ properties → storage attr = attr.
Proof. intros Ha. unfold storage. by case_decide. Qed.

Lemma set_dist_units_run self val w :
  setattr self "dist_units" val w =
  match py_in val DIST_UNITS w with
  | (Return true, _) => (Return (<["_dist_units" := val]> self), w)
  | (Return false, _) =>
      (Raise (ValueError [Lit "Distance units are required and must lie in ";
                          ReprList DIST_UNITS]), w)
  | (Raise e, _) => (Raise e, w)
  end.
Proof.
  unfold setattr. simpl. unfold set_dist_units. rewrite bind_run.
  pose proof (py_in_eq val DIST_UNITS w) as E.
  destruct (py_in val DIST_UNITS w) as [[[|]|e] w1]; simpl in E; by subst w1.
Qed.

Lemma method_set_index_run l key w :
  method_set_index (PyFrame l) key w =
  match set_index key (frames w l) with
  | Return df' => (Return (PyFrame (next w)), (new_frame df' w).2)
  | Raise e => (Raise e, w)
  end.
Proof.
  unfold method_set_index. rewrite bind_run. cbn [deref].
  rewrite bind_run. unfold lift.
  by destruct (set_index key (frames w l)).
Qed.

Lemma method_groupby_run l keys w :
  method_groupby (PyFrame l) keys w =
  match groupby_check keys (frames w l) with
  | Return _ =>
      (Return (PyGroupBy {| gb_id := next w; gb_obj := l; gb_keys := keys |}),
       (new_id w).2)
  | Raise e => (Raise e, w)
  end.
Proof.
  unfold method_groupby. rewrite bind_run. cbn [deref].
  rewrite bind_run. unfold lift.
  by destruct (groupby_check keys (frames w l)).
Qed.

Lemma build_index_run attr l w :
  build_index attr (PyFrame l) w =
  if decide (attr = "calendar_dates") then method_groupby (PyFrame l) ["service_id"; "date"] w
  else if decide (attr = "calendar") then method_set_index (PyFrame l) "service_id" w
  else method_set_index (PyFrame l) "trip_id" w.
Proof. unfold build_index. by repeat case_decide. Qed.

(** Building the index of an existing, non-empty frame. *)
Lemma build_index_inv attr l idx w w' :
  attr ∈ indexed → l < next w → empty (frames w l) = false →
  build_index attr (PyFrame l) w = (Return idx, w') →
  derived w' attr (PyFrame l) idx ∧ allocated w' idx ∧ idx ≠ PyNone.
Proof.
  intros Ha Hl He. unfold indexed in Ha.
  assert (∀ key,
    method_set_index (PyFrame l) key w = (Return idx, w') →
    ∃ li, idx = PyFrame li ∧ li ≠ l ∧ li < next w' ∧
          frames w' l = frames w l ∧
          set_index key (frames w l) = Return (frames w' li)) as Hsi.
  { intros key. rewrite method_set_index_run.
    destruct (set_index key (frames w l)) as [df'|e] eqn:E; [|done].
    intros [= <- <-]. exists (next w). simpl.
    rewrite fn_lookup_insert, fn_lookup_insert_ne by lia.
    repeat split; (lia || done). }
  rewrite build_index_run.
  repeat (apply elem_of_cons in Ha as [->|Ha]).
  - intros (li & -> & Hne & Hlt & Hf & Hs)%Hsi. split; [|done].
    apply derived_trips; rewrite ?Hf; done.
  - intros (li & -> & Hne & Hlt & Hf & Hs)%Hsi. split; [|done].
    apply derived_calendar; rewrite ?Hf; done.
  - rewrite decide_True by done. rewrite method_groupby_run.
    destruct (groupby_check _ (frames w l)) as [[]|e] eqn:E; [|done].
    intros [= <- <-]. simpl. split; [|split; [lia | done]].
    by apply derived_calendar_dates.
  - by apply elem_of_nil in Ha.
Qed.

Lemma build_index_returns attr l w :
  attr ∈ indexed → key_columns attr ⊆ columns (frames w l) →
  ∃ idx w', build_index attr (PyFrame l) w = (Return idx, w').
Proof.
  intros Ha. unfold indexed in Ha.
  assert (∀ key, key ∈ columns (frames w l) →
    ∃ idx w', method_set_index (PyFrame l) key w = (Return idx, w')) as Hsi.
  { intros key [df' E]%set_index_Return. rewrite method_set_index_run, E. eauto. }
  rewrite build_index_run.
  repeat (apply elem_of_cons in Ha as [->|Ha]).
  - intros Hk. apply Hsi, Hk. left.
  - intros Hk. apply Hsi, Hk. left.
  - intros Hk%groupby_check_Return. rewrite decide_True by done.
    rewrite method_groupby_run.
    change (key_columns "calendar_dates") with ["service_id"; "date"] in Hk.
    rewrite Hk. eauto.
  - by apply elem_of_nil in Ha.
Qed.
End setters.

Lemma indexed_tables attr :
  attr ∈ indexed → attr ∈ tables ∧ attr ∈ init_params ∧ attr ≠ "dist_units".
Proof.
  assert (Forall (λ attr, attr ∈ tables ∧ attr ∈ init_params ∧ attr ≠ "dist_units")
                 indexed) as Hall
    by (by apply (bool_decide_unpack _); vm_compute).
  rewrite Forall_forall in Hall. apply Hall.
Qed.

(** *** Assignment to an attribute *)

Section setattr.
Context `{Environment}.
Implicit Types (self : Feed) (val idx : value).

Lemma properties_cases attr :
  attr ∈ properties ↔ attr = "dist_units" ∨ attr ∈ indexed.
Proof. unfold properties, indexed. set_solver. Qed.

Lemma setattr_inv self attr val w self' w' :
  setattr self attr val w = (Return self', w') →
  self' !! storage attr = Some val ∧
  (∀ k, k ∉ touched attr → self' !! k = self !! k) ∧
  grows w w'.
Proof.
  intros E. pose proof (setattr_grows self attr val w) as Hg.
  rewrite E in Hg. simpl in Hg. split; [|split; [|done]].
  - destruct (decide (attr ∈ properties)) as [Hp|Hp].
    + apply properties_cases in Hp as [->|Hi].
      * rewrite set_dist_units_run in E.
        destruct (py_in val DIST_UNITS w) as [[[|]|e] w1]; try done.
        injection E as <- <-. apply lookup_insert_eq.
      * rewrite setattr_indexed, set_indexed_run in E by done.
        destruct val as [| |l|]; try done.
        -- injection E as <- <-.
           rewrite lookup_insert_ne, lookup_insert_eq; [done |].
           unfold indexed in Hi.
           repeat (apply elem_of_cons in Hi as [->|Hi]); try done.
           by apply elem_of_nil in Hi.
        -- assert (index_attr attr ≠ storage attr) as Hne.
           { unfold indexed in Hi.
             repeat (apply elem_of_cons in Hi as [->|Hi]); try done.
             by apply elem_of_nil in Hi. }
           destruct (empty (frames w l)).
           ++ injection E as <- <-. by rewrite lookup_insert_ne, lookup_insert_eq.
           ++ destruct (build_index attr (PyFrame l) w) as [[i|e] w1]; [|done].
              injection E as <- <-. by rewrite lookup_insert_ne, lookup_insert_eq.
    + rewrite setattr_plain in E by done. injection E as <- <-.
      rewrite storage_plain by done. apply lookup_insert_eq.
  - intros k Hk. destruct (decide (attr ∈ properties)) as [Hp|Hp].
    + apply properties_cases in Hp as [->|Hi].
      * rewrite set_dist_units_run in E.
        destruct (py_in val DIST_UNITS w) as [[[|]|e] w1]; try done.
        injection E as <- <-. apply lookup_insert_ne.
        intros <-. apply Hk. by left.
      * assert (k ≠ storage attr ∧ k ≠ index_attr attr) as [Hk1 Hk2].
        { unfold touched in Hk. rewrite decide_True in Hk by done.
          split; intros Heq; apply Hk; rewrite Heq; [by left | right; by left]. }
        rewrite setattr_indexed, set_indexed_run in E by done.
        destruct val as [| |l|]; try done.
        -- injection E as <- <-. by rewrite !lookup_insert_ne.
        -- destruct (empty (frames w l)).
           ++ injection E as <- <-. by rewrite !lookup_insert_ne.
           ++ destruct (build_index attr (PyFrame l) w) as [[i|e] w1]; [|done].
              injection E as <- <-. by rewrite !lookup_insert_ne.
    + rewrite setattr_plain in E by done. injection E as <- <-.
      apply lookup_insert_ne. intros <-. apply Hk.
      unfold touched. rewrite decide_False.
      * rewrite storage_plain by done. by left.
      * intros Hi. apply Hp, properties_cases. by right.
Qed.

Lemma setattr_index_inv self attr val w self' w' :
  attr ∈ indexed → allocated w val →
  setattr self attr val w = (Return self', w') →
  ∃ idx, self' !! index_attr attr = Some idx ∧
         derived w' attr val idx ∧ allocated w' idx ∧
         (idx ≠ PyNone ↔ ∃ l, val = PyFrame l ∧ empty (frames w' l) = false).
Proof.
  intros Hi Hval E. pose proof (setattr_grows self attr val w) as Hg.
  rewrite E in Hg. simpl in Hg.
  rewrite setattr_indexed, set_indexed_run in E by done.
  destruct val as [| |l|]; try done.
  - injection E as <- <-. exists PyNone. rewrite lookup_insert_eq.
    split; [done | split; [constructor | split; [done |]]].
    split; [done | by intros (l & ? & _)].
  - simpl in Hval. destruct Hg as [_ Hf]. specialize (Hf l Hval).
    destruct (empty (frames w l)) eqn:He.
    + injection E as <- <-. exists PyNone. rewrite lookup_insert_eq.
      split; [done | split; [by constructor | split; [done |]]].
      split; [done | intros (l' & [= ->] & He'); congruence].
    + destruct (build_index attr (PyFrame l) w) as [[i|e] w1] eqn:Eb; [|done].
      injection E as <- <-. exists i. rewrite lookup_insert_eq.
      apply build_index_inv in Eb as (Hd & Ha & Hn); try done.
      split; [done | split; [done | split; [done |]]].
      split; [|done]. intros _. exists l. split; [done |]. by rewrite Hf.
Qed.

Lemma setattr_returns self attr val w :
  attr ≠ "dist_units" → assignable w attr val →
  ∃ self' w', setattr self attr val w = (Return self', w').
Proof.
  intros Hd Ha. destruct (decide (attr ∈ properties)) as [Hp|Hp].
  - apply properties_cases in Hp as [->|Hi]; [done |].
    rewrite setattr_indexed, set_indexed_run by done.
    destruct val as [| |l|]; simpl in Ha; eauto.
    + exfalso. apply Ha, properties_cases. by right.
    + destruct (empty (frames w l)) eqn:He; eauto.
      destruct (build_index_returns attr l w) as (idx & w' & ->); eauto.
    + exfalso. apply Ha, properties_cases. by right.
  - rewrite setattr_plain by done. eauto.
Qed.

Lemma setattr_dist_units_str self v w :
  setattr self "dist_units" (PyStr v) w =
  if decide (v ∈ DIST_UNITS)
  then (Return (<["_dist_units" := PyStr v]> self), w)
  else (Raise (ValueError [Lit "Distance units are required and must lie in ";
                           ReprList DIST_UNITS]), w).
Proof.
  rewrite set_dist_units_run. simpl.
  case_bool_decide; by case_decide.
Qed.
End setattr.

(** *** Stability under allocation *)

Lemma allocated_grows w w' v : grows w w' → allocated w v → allocated w' v.
Proof. intros [Hn _]. destruct v; simpl; lia. Qed.

Lemma derived_grows w w' attr val idx :
  grows w w' → allocated w val → allocated w idx →
  derived w attr val idx → derived w' attr val idx.
Proof.
  intros [_ Hf] Hv Hi Hd.
  destruct Hd; simpl in Hv, Hi; constructor; rewrite ?Hf; done.
Qed.

Lemma assignable_grows w w' attr val :
  grows w w' → allocated w val → assignable w attr val → assignable w' attr val.
Proof.
  intros [_ Hf] Hv Ha. destruct val; simpl in *; try done.
  by rewrite Hf.
Qed.

(** *** Construction *)

Lemma touched_disjoint p q k :
  p ∈ init_params → q ∈ init_params → p ≠ q → k ∈ touched p → k ∉ touched q.
Proof.
  assert (Forall (λ p, Forall (λ q, p = q ∨
            Forall (λ k, k ∉ touched q) (touched p)) init_params) init_params)
    as Hall by (by apply (bool_decide_unpack _); vm_compute).
  intros Hp Hq Hne Hk.
  rewrite Forall_forall in Hall. specialize (Hall p Hp).
  rewrite Forall_forall in Hall. destruct (Hall q Hq) as [->|Hd]; [done |].
  rewrite Forall_forall in Hd. by apply Hd.
Qed.

Section construction.
Context `{Environment}.
Implicit Types (self : Feed) (val idx : value) (kwargs : gmap string value).

Lemma init_params_FEED_ATTRS_1 p : p ∈ init_params → p ∈ FEED_ATTRS_1.
Proof. intros Hp. by rewrite FEED_ATTRS_1_perm. Qed.

Lemma init_loop_cons prop params kwargs self :
  init_loop (prop :: params) kwargs self =
  if decide (prop ∈ FEED_ATTRS_1)
  then self' ← setattr self prop (default PyNone (kwargs !! prop));
       init_loop params kwargs self'
  else init_loop params kwargs self.
Proof. reflexivity. Qed.

Lemma init_loop_inv params kwargs self w self' w' :
  NoDup params → params ⊆ init_params →
  init_loop params kwargs self w = (Return self', w') →
  grows w w' ∧
  (∀ k, (∀ q, q ∈ params → k ∉ touched q) → self' !! k = self !! k) ∧
  (∀ p, p ∈ params →
     ∃ self1 w1 self2 w2,
       grows w w1 ∧
       setattr self1 p (default PyNone (kwargs !! p)) w1 = (Return self2, w2) ∧
       grows w2 w' ∧
       ∀ k, k ∈ touched p → self' !! k = self2 !! k).
Proof.
  revert self w. induction params as [|p0 params IH]; intros self w Hnd Hsub E.
  - injection E as <- <-. split; [reflexivity | split; [done |]].
    by intros p ?%elem_of_nil.
  - rewrite init_loop_cons, decide_True in E
      by (apply init_params_FEED_ATTRS_1, Hsub; left).
    apply bind_inv in E as (self1 & w1 & E1 & E2).
    apply NoDup_cons in Hnd as [Hp0 Hnd].
    assert (params ⊆ init_params) as Hsub' by (intros x Hx; apply Hsub; by right).
    destruct (IH _ _ Hnd Hsub' E2) as (Hg & Hother & Hsplit).
    destruct (setattr_inv _ _ _ _ _ _ E1) as (_ & Ho1 & Hg1).
    split; [by etrans | split].
    + intros k Hk. rewrite Hother by (intros q Hq; apply Hk; by right).
      apply Ho1, Hk. by left.
    + intros p [->|Hp]%elem_of_cons.
      * exists self, w, self1, w1. split; [reflexivity | split; [done | split; [done |]]].
        intros k Hk. apply Hother. intros q Hq.
        apply (touched_disjoint p0 q); [apply Hsub; by left | by apply Hsub' | | done].
        intros ->. done.
      * destruct (Hsplit p Hp) as (s1 & v1 & s2 & v2 & Hg2 & Es & Hg3 & Hk).
        exists s1, v1, s2, v2. split; [by etrans | done].
Qed.

Lemma NoDup_init_params : NoDup init_params.
Proof. by apply (bool_decide_unpack _); vm_compute. Qed.

Lemma init_run kwargs w :
  dom kwargs ⊆ list_to_set init_params → is_Some (kwargs !! "dist_units") →
  __init__ kwargs w = init_loop init_params kwargs ∅ w.
Proof. intros Hd Hk. unfold __init__. by rewrite !decide_True. Qed.

Lemma init_Return_inv kwargs w self' w' :
  __init__ kwargs w = (Return self', w') →
  init_loop init_params kwargs ∅ w = (Return self', w').
Proof. unfold __init__. by repeat case_decide. Qed.

(** What a constructed feed holds. *)
Lemma init_inv kwargs w self' w' :
  __init__ kwargs w = (Return self', w') →
  grows w w' ∧
  (∀ p, p ∈ init_params → self' !! storage p = Some (default PyNone (kwargs !! p))) ∧
  (∀ attr, attr ∈ indexed → allocated w (default PyNone (kwargs !! attr)) →
     ∃ idx, self' !! index_attr attr = Some idx ∧
            derived w' attr (default PyNone (kwargs !! attr)) idx ∧
            allocated w' idx ∧
            (idx ≠ PyNone ↔
             ∃ l, default PyNone (kwargs !! attr) = PyFrame l ∧
                  empty (frames w' l) = false)).
Proof.
  intros E%init_Return_inv.
  destruct (init_loop_inv _ _ _ _ _ _ NoDup_init_params (reflexivity _) E)
    as (Hg & _ & Hsplit).
  split; [done | split].
  - intros p Hp.
    destruct (Hsplit p Hp) as (s1 & w1 & s2 & w2 & Hg1 & Es & Hg2 & Hk).
    rewrite Hk.
    + by destruct (setattr_inv _ _ _ _ _ _ Es) as (? & _).
    + unfold touched. case_decide; by left.
  - intros attr Hi Hv.
    assert (attr ∈ init_params) as Hp.
    { by apply indexed_tables. }
    destruct (Hsplit attr Hp) as (s1 & w1 & s2 & w2 & Hg1 & Es & Hg2 & Hk).
    assert (allocated w1 (default PyNone (kwargs !! attr))) as Hv1
      by by eapply allocated_grows.
    destruct (setattr_index_inv _ _ _ _ _ _ Hi Hv1 Es) as (idx & Hidx & Hd & Ha & Hiff).
    assert (allocated w2 (default PyNone (kwargs !! attr))) as Hv2.
    { eapply allocated_grows; [|done]. by eapply setattr_inv. }
    exists idx. split; [|split; [|split]].
    + rewrite Hk; [done |]. unfold touched. rewrite decide_True by done.
      right. by left.
    + by eapply derived_grows.
    + by eapply allocated_grows.
    + rewrite Hiff. destruct Hg2 as [_ Hf].
      split; intros (l & El & He); exists l; (split; [done |]);
        rewrite El in Hv2; simpl in Hv2; [rewrite Hf | rewrite <-Hf]; done.
Qed.

Lemma init_loop_returns params kwargs self w :
  "dist_units" ∉ params →
  (∀ p, p ∈ params →
     allocated w (default PyNone (kwargs !! p)) ∧
     assignable w p (default PyNone (kwargs !! p))) →
  ∃ self' w', init_loop params kwargs self w = (Return self', w').
Proof.
  revert self w. induction params as [|p0 params IH]; intros self w Hd Hok.
  - simpl. eauto.
  - rewrite init_loop_cons. apply not_elem_of_cons in Hd as [Hd0 Hd].
    assert (∀ self1 w1, grows w w1 →
      ∃ self' w', init_loop params kwargs self1 w1 = (Return self', w')) as Hrest.
    { intros self1 w1 Hg. apply IH; [done |]. intros p Hp.
      destruct (Hok p) as [Ha Hs]; [by right |].
      split; [by eapply allocated_grows | by eapply assignable_grows]. }
    case_decide; [|apply Hrest; reflexivity].
    destruct (Hok p0) as [Ha Hs]; [by left |].
    destruct (setattr_returns self p0 _ w (not_eq_sym Hd0) Hs) as (self1 & w1 & E1).
    rewrite (bind_Return _ _ _ _ _ E1). apply Hrest.
    by eapply setattr_inv.
Qed.

(** When the constructor returns. *)
Lemma init_returns kwargs v w :
  dom kwargs ⊆ list_to_set init_params →
  kwargs !! "dist_units" = Some (PyStr v) → v ∈ DIST_UNITS →
  (∀ t, t ∈ tables →
     allocated w (default PyNone (kwargs !! t)) ∧
     assignable w t (default PyNone (kwargs !! t))) →
  ∃ self' w', __init__ kwargs w = (Return self', w').
Proof.
  intros Hd Hk Hv Hok. rewrite init_run by (done || by rewrite Hk).
  unfold init_params. rewrite init_loop_cons.
  rewrite decide_True by (apply init_params_FEED_ATTRS_1; by left).
  rewrite bind_run, Hk.
  change (default PyNone (Some (PyStr v))) with (PyStr v).
  rewrite setattr_dist_units_str, decide_True by done.
  apply init_loop_returns; [|done].
  by apply (bool_decide_unpack _); vm_compute.
Qed.
End construction.

(** *** What assignment and construction raise *)

Section raising.
Context `{Environment}.
Implicit Types (self : Feed) (val idx : value) (kwargs : gmap string value).







End raising.

(** *** Validation of the distance units *)



(** *** Derived indexes *)



(** *** Equality of feeds *)

Lemma tables_not_dist_units t : t ∈ tables → t ∈ init_params ∧ t ≠ "dist_units".
Proof.
  intros Ht. split; [by right |].
  assert (Forall (λ t, t ≠ "dist_units") tables) as Hall
    by (by apply (bool_decide_unpack _); vm_compute).
  rewrite Forall_forall in Hall. by apply Hall.
Qed.

Section equality.
Context `{Environment}.
Implicit Types (self other : Feed) (kwargs : gmap string value).

Lemma getattr_storage self attr w :
  getattr self attr w =
  match self !! storage attr with
  | Some v => (Return v, w)
  | None => (Raise (AttributeError attr), w)
  end.
Proof. apply getattr_run. Qed.

Lemma eq_loop_step key keys self other w x y :
  self !! storage key = Some x → other !! storage key = Some y →
  eq_loop (key :: keys) self other w =
  match x with
  | PyFrame lx =>
      match y with
      | PyFrame ly =>
          if almost_equal (frames w lx) (frames w ly)
          then eq_loop keys self other w else (Return false, w)
      | _ => (Return false, w)
      end
  | _ =>
      match py_ne x y w with
      | (Return b, _) => if b then (Return false, w) else eq_loop keys self other w
      | (Raise e, _) => (Raise e, w)
      end
  end.
Proof.
  intros Hx Hy. simpl. rewrite bind_run, getattr_storage, Hx.
  rewrite bind_run, getattr_storage, Hy.
  destruct x as [|a|lx|g]; destruct y as [|b|ly|h]; try done; simpl.
  - by destruct (negb (a =? b)%string).
  - rewrite bind_run. cbn [deref]. rewrite bind_run. cbn [deref].
    by destruct (almost_equal _ _).
  - by destruct (negb (gb_id g =? gb_id h)).
Qed.

(** Two feeds that agree on every attribute but one table, which the first
    lacks and the second has. *)
Lemma eq_loop_absent_present keys self other w t l :
  keys ⊆ init_params →
  self !! storage t = Some PyNone → other !! storage t = Some (PyFrame l) →
  (∀ k, k ∈ init_params → k ≠ t →
     ∃ v, self !! storage k = Some v ∧ other !! storage k = Some v ∧
          (v = PyNone ∨ ∃ s, v = PyStr s)) →
  eq_loop keys self other w =
    (if decide (t ∈ keys) then (Raise truth_value_error, w) else (Return true, w)) ∧
  eq_loop keys other self w =
    (if decide (t ∈ keys) then (Return false, w) else (Return true, w)).
Proof.
  intros Hsub Hs Ho Hrest. induction keys as [|k keys IH].
  - by rewrite decide_False by apply not_elem_of_nil.
  - assert (keys ⊆ init_params) as Hsub' by (intros x Hx; apply Hsub; by right).
    destruct (IH Hsub') as [IH1 IH2]. clear IH.
    destruct (decide (k = t)) as [->|Hk].
    + rewrite !decide_True by (by left).
      rewrite (eq_loop_step _ _ _ _ _ _ _ Hs Ho), (eq_loop_step _ _ _ _ _ _ _ Ho Hs).
      done.
    + destruct (Hrest k) as (v & Hv1 & Hv2 & Hv); [apply Hsub; by left | done |].
      rewrite (eq_loop_step _ _ _ _ _ _ _ Hv1 Hv2), (eq_loop_step _ _ _ _ _ _ _ Hv2 Hv1).
      assert (py_ne v v w = (Return false, w)) as ->.
      { destruct Hv as [->|[s ->]]; simpl; [done |].
        by rewrite String.eqb_refl. }
      rewrite IH1, IH2.
      assert (t ∈ k :: keys ↔ t ∈ keys) as Hiff.
      { rewrite elem_of_cons. split; [intros [?|?]; congruence | by right]. }
      rewrite !(decide_ext _ _ _ _ Hiff).
      by destruct Hv as [->|[s ->]].
Qed.
End equality.

(** C2, where the code departs from the claim.  Take feeds [f] and [g] built
    with the same distance units, [f] with no table and [g] with a table in
    one slot [t].  Then [g == f] returns [False], but [f == g] raises the
    [ValueError] of the truth value of a DataFrame: for the slot [t] the
    loop compares [None != DataFrame]. *)
Theorem eq_raises_absent_vs_present `{Environment} (du t : string) (l : loc)
    (w0 w1 w : World) (f g : Feed) :
  t ∈ tables →
  __init__ {["dist_units" := PyStr du]} w0 = (Return f, w1) →
  __init__ (<[t := PyFrame l]> {["dist_units" := PyStr du]}) w1 = (Return g, w) →
  __eq__ f g w = (Raise truth_value_error, w) ∧
  __eq__ g f w = (Return false, w).
Proof.
  intros Ht Ef Eg.
  apply init_inv in Ef as (_ & Hf & _). apply init_inv in Eg as (_ & Hg & _).
  assert (t ∈ init_params) as Htp by (by right).
  assert (t ≠ "dist_units") as Htd by by apply tables_not_dist_units.
  destruct (eq_loop_absent_present FEED_ATTRS_1 f g w t l) as [E1 E2].
  - intros k Hk. by rewrite <-FEED_ATTRS_1_perm.
  - rewrite Hf by done. by rewrite lookup_singleton_ne.
  - rewrite Hg by done. by rewrite lookup_insert_eq.
  - intros k Hk Hkt. rewrite Hf, Hg by done.
    rewrite lookup_insert_ne by done.
    destruct (decide (k = "dist_units")) as [->|Hkd].
    + rewrite lookup_singleton_eq. exists (PyStr du).
      split; [done | split; [done | right; by exists du]].
    + rewrite lookup_singleton_ne by done. exists PyNone.
      split; [done | split; [done | by left]].
  - unfold __eq__. rewrite E1, E2.
    rewrite !decide_True by (rewrite FEED_ATTRS_1_perm; done). done.
Qed.

Lemma eq_raises_absent_vs_present_witness :
  ∃ f g w1 w,
    @__init__ demo {["dist_units" := PyStr "km"]} world1 = (Return f, w1) ∧
    @__init__ demo (<["stops" := PyFrame 0]> {["dist_units" := PyStr "km"]}) w1
      = (Return g, w) ∧
    @__eq__ demo f g w = (Raise truth_value_error, w) ∧
    @__eq__ demo g f w = (Return false, w).
Proof.
  destruct (@init_returns demo {["dist_units" := PyStr "km"]} "km" world1)
    as (f & w1 & Ef).
  { by apply (bool_decide_unpack _); vm_compute. }
  { apply lookup_singleton_eq. }
  { by apply (bool_decide_unpack _); vm_compute. }
  { intros t [_ Ht]%tables_not_dist_units. by rewrite lookup_singleton_ne. }
  destruct (@init_returns demo (<["stops" := PyFrame 0]> {["dist_units" := PyStr "km"]})
              "km" w1) as (g & w & Eg).
  { by apply (bool_decide_unpack _); vm_compute. }
  { rewrite lookup_insert_ne by done. apply lookup_singleton_eq. }
  { by apply (bool_decide_unpack _); vm_compute. }
  { intros t [_ Ht]%tables_not_dist_units.
    destruct (decide (t = "stops")) as [->|Hne].
    - rewrite lookup_insert_eq. simpl. split.
      + destruct (@init_grows demo {["dist_units" := PyStr "km"]} world1) as [Hn _].
        rewrite Ef in Hn. simpl in Hn. lia.
      + intros Hi. exfalso. revert Hi. by apply (bool_decide_unpack _); vm_compute.
    - rewrite lookup_insert_ne, lookup_singleton_ne by done. split; exact I. }
  exists f, g, w1, w. split; [done | split; [done |]].
  apply (@eq_raises_absent_vs_present demo "km" "stops" 0 world1 w1 w f g);
    [by apply (bool_decide_unpack _); vm_compute | done | done].
Defined.
(** *** Copies *)

Section copying.
Context `{Environment}.
Implicit Types (self other : Feed) (v : value).



Lemma copy_of_typed w w' v v' :
  copy_of w w' v v' →
  (v = PyNone ∨ ∃ l, v = PyFrame l) → (v' = PyNone ∨ ∃ l, v' = PyFrame l).
Proof.
  intros Hc [->|[l ->]]; simpl in Hc; [by left |].
  destruct Hc as (l' & -> & _). right. eauto.
Qed.





Lemma storage_FEED_ATTRS_2 a :
  a ∈ FEED_ATTRS_2 → (a ∉ properties) ∧ (storage a = a).
Proof.
  assert (Forall (λ a, (a ∉ properties) ∧ (storage a = a)) FEED_ATTRS_2) as Hall
    by (by apply (bool_decide_unpack _); vm_compute).
  rewrite Forall_forall in Hall. by apply Hall.
Qed.
End copying.






Section copy_loop.
Context `{Environment}.
Implicit Types (self other : Feed) (v : value).




End copy_loop.

Section copy_feed.
Context `{Environment}.
Implicit Types (self other : Feed).


End copy_feed.




(** *** Writing leaves the feed alone *)

Lemma respects_weaken {A} (R R' : relation World) (m : M A) :
  (∀ w w', R w w' → R' w w') → respects R m → respects R' m.
Proof. intros HR Hm w. apply HR, Hm. Qed.

Lemma same_objects_keeps n w w' : same_objects w w' → keeps n w w'.
Proof. intros [Hn Hf] Hle. rewrite Hn, Hf. done. Qed.

Lemma same_objects_grows w w' : same_objects w w' → grows w w'.
Proof. intros [Hn Hf]. split; [lia | intros l _; by rewrite Hf]. Qed.

Section disk_primitives.
Context `{Environment}.

Lemma path_exists_same p : respects same_objects (path_exists p).
Proof. by intros w. Qed.

Lemma is_file_same p : respects same_objects (is_file p).
Proof. by intros w. Qed.

Lemma read_bytes_same p : respects same_objects (read_bytes p).
Proof. intros w. unfold read_bytes. by destruct (disk w !! p) as [[]|]. Qed.

Lemma mkdir_same p : respects same_objects (mkdir p).
Proof.
  intros w. unfold mkdir.
  by destruct (disk w !! parent p) as [[]|]; destruct (disk w !! p) as [[]|].
Qed.

Lemma write_text_same p c : respects same_objects (write_text p c).
Proof.
  intros w. unfold write_text.
  by destruct (disk w !! parent p) as [[]|]; destruct (disk w !! p) as [[]|].
Qed.

Lemma iterdir_same d : respects same_objects (iterdir d).
Proof. by intros w. Qed.

Lemma TemporaryDirectory_same : respects same_objects TemporaryDirectory.
Proof. by intros w. Qed.

Lemma cleanup_same tmp : respects same_objects (cleanup tmp).
Proof. by intros w. Qed.

Lemma extract_same d ms : respects same_objects (extract d ms).
Proof. by intros w. Qed.

Lemma list_members_same d : respects same_objects (list_members d).
Proof. by intros w. Qed.

Lemma makedirs_same p : respects same_objects (makedirs p).
Proof. intros w. unfold makedirs. by destruct (makedirs_from _ _ _). Qed.

Lemma shutil_unpack_archive_same a d : respects same_objects (shutil_unpack_archive a d).
Proof.
  apply respects_bind; [apply _ | apply read_bytes_same | intros c].
  apply respects_bind; [apply _ | apply respects_lift, _ | intros ms].
  apply extract_same.
Qed.

Lemma shutil_make_archive_same dest root : respects same_objects (shutil_make_archive dest root).
Proof.
  apply respects_bind; [apply _ | apply path_exists_same | intros ex].
  apply respects_bind; [apply _ | | intros _].
  { destruct (_ && _); [apply makedirs_same | apply respects_mret, _]. }
  apply respects_bind; [apply _ | apply list_members_same | intros ms].
  apply write_text_same.
Qed.

Lemma coerce_column_run l s w :
  coerce_column l s w =
  match getitem (frames w l) s with
  | Raise e => (Raise e, w)
  | Return col =>
      match int_text col with
      | Raise e => (Raise e, w)
      | Return col' => store l (setitem (frames w l) s col') w
      end
  end.
Proof.
  unfold coerce_column. rewrite bind_run. cbn [deref].
  rewrite bind_run. unfold lift. destruct (getitem _ _); [|done].
  rewrite bind_run. by destruct (int_text _).
Qed.

Lemma coerce_column_keeps n l s : n ≤ l → respects (keeps n) (coerce_column l s).
Proof.
  intros Hl w. rewrite coerce_column_run.
  destruct (getitem _ _); [|reflexivity].
  destruct (int_text _); [|reflexivity].
  intros Hn. simpl. split; [done |]. intros l' Hl'.
  apply fn_lookup_insert_ne. lia.
Qed.

Lemma write_table_keeps n self new_path ndigits table :
  respects (keeps n) (write_table self new_path ndigits table).
Proof.
  intros w. unfold write_table. rewrite bind_run, getattr_storage.
  destruct (self !! storage table) as [[|s|l|g]|]; try reflexivity.
  rewrite bind_run. unfold frame_copy at 1. rewrite bind_run. cbn [deref new_frame].
  set (w1 := {| next := S (next w); frames := _; disk := disk w |}).
  assert (keeps n w w1) as H1.
  { apply grows_keeps. split; simpl; [lia |].
    intros l' Hl'. apply fn_lookup_insert_ne. lia. }
  intros Hn.
  assert (respects (keeps n)
    (df ← deref (next w);
     for_each (f_int_cols df) (coerce_column (next w));;
     df' ← deref (next w);
     write_text (new_path ++ [table +:+ ".txt"]) (to_csv ndigits df'))) as Hrest.
  { apply respects_bind; [apply _ | by intros ? | intros df].
    apply respects_bind; [apply _ | | intros _].
    { apply respects_for_each; [apply _ |]. intros s _.
      by apply coerce_column_keeps. }
    apply respects_bind; [apply _ | by intros ? | intros df'].
    eapply respects_weaken; [apply same_objects_keeps | apply write_text_same]. }
  specialize (Hrest w1). by apply (transitivity H1 Hrest).
Qed.

Lemma write_keeps n self path ndigits : respects (keeps n) (write self path ndigits).
Proof.
  unfold write. case_decide.
  - apply respects_bind; [apply _ | | intros tmp].
    { eapply respects_weaken; [apply same_objects_keeps | apply TemporaryDirectory_same]. }
    apply respects_bind; [apply _ | | intros _].
    { apply respects_for_each; [apply _ |]. intros t _. apply write_table_keeps. }
    apply respects_bind; [apply _ | | intros _].
    { eapply respects_weaken; [apply same_objects_keeps | apply shutil_make_archive_same]. }
    eapply respects_weaken; [apply same_objects_keeps | apply cleanup_same].
  - apply respects_bind; [apply _ | | intros ex].
    { eapply respects_weaken; [apply same_objects_keeps | apply path_exists_same]. }
    apply respects_bind; [apply _ | | intros _].
    { destruct (negb ex); [|apply respects_mret, _].
      eapply respects_weaken; [apply same_objects_keeps | apply mkdir_same]. }
    apply respects_for_each; [apply _ |]. intros t _. apply write_table_keeps.
Qed.
End disk_primitives.

(** C10.  [Feed.write] changes no object that existed before the call,
    whether it returns or raises: the integer coercion assigns columns of
    per-table copies only.  So every table of the feed holds afterwards the
    value it held before. *)
Theorem write_leaves_tables `{Environment} (self : Feed) (path : path)
    (ndigits : nat) (w : World) (t : string) (l : loc) :
  self !! storage t = Some (PyFrame l) → l < next w →
  frames (write self path ndigits w).2 l = frames w l ∧
  ∀ l', l' < next w → frames (write self path ndigits w).2 l' = frames w l'.
Proof.
  intros _ Hl.
  destruct (write_keeps (next w) self path ndigits w) as [_ Hf]; [done |].
  split; [by apply Hf | done].
Qed.

Lemma write_leaves_tables_witness :
  frames (@write demo feed1 ["out"] 6 world2).2 1 = frames world2 1.
Proof.
  assert (feed1 !! storage "trips" = Some (PyFrame 1)) as H1 by by vm_compute.
  assert (1 < next world2) as H2 by (simpl; lia).
  exact (proj1 (@write_leaves_tables demo feed1 ["out"] 6 world2 "trips" 1 H1 H2)).
Defined.
(** *** Integer-flagged columns *)












Section int_columns.
Context `{Environment}.



Lemma mapO_returns {A B} (f : A → outcome B) l :
  Forall (λ a, ∃ b, f a = Return b) l → ∃ bs, mapO f l = Return bs.
Proof.
  induction 1 as [|a l [b Hb] _ [bs IH]]; [by exists [] |].
  exists (b :: bs). simpl. by rewrite Hb, IH.
Qed.

(** On numeric cells the coercion always returns. *)
Lemma int_text_numeric col :
  Forall (λ c, ∀ s, c ≠ VStr s) col → ∃ col', int_text col = Return col'.
Proof.
  intros Hnum. unfold int_text, astype_int.
  destruct (mapO_returns int_of_cell (fillna (VInt (-1)) col)) as [zs ->].
  - unfold fillna. apply Forall_fmap. eapply Forall_impl; [exact Hnum |].
    intros c Hc. simpl. destruct c as [|z|q|s]; simpl; eauto.
    by destruct (Hc s).
  - simpl. eauto.
Qed.




End int_columns.




(** *** Names of entries *)

Lemma string_take_drop n s : string_take n s +:+ string_drop n s = s.
Proof.
  revert s. induction n as [|n IH]; intros [|a s]; try done.
  cbn [string_take string_drop]. change (String a ?x +:+ ?y) with (String a (x +:+ y)).
  by rewrite IH.
Qed.

(** A name with a suffix is its stem followed by its suffix. *)
Lemma stem_suffix p : suffix p ≠ "" → stem p +:+ suffix p = p.
Proof.
  unfold suffix, stem. destruct (split_point p) as [i|]; [|done].
  intros _. apply string_take_drop.
Qed.

Lemma stem_suffix_inj p q :
  suffix p = ".txt" → suffix q = ".txt" → stem p = stem q → p = q.
Proof.
  intros Hp Hq Hs.
  rewrite <-(stem_suffix p), <-(stem_suffix q) by (by rewrite ?Hp, ?Hq).
  by rewrite Hp, Hq, Hs.
Qed.

(** The file name of a table splits back into the table and [.txt]. *)
Lemma table_file_name t :
  t ∈ tables → stem (t +:+ ".txt") = t ∧ suffix (t +:+ ".txt") = ".txt".
Proof.
  assert (Forall (λ t, stem (t +:+ ".txt") = t ∧ suffix (t +:+ ".txt") = ".txt")
                 tables) as Hall
    by (by apply (bool_decide_unpack _); vm_compute).
  rewrite Forall_forall in Hall. apply Hall.
Qed.

Lemma recognised_name p t :
  t ∈ tables → suffix p = ".txt" → stem p = t → p = t +:+ ".txt".
Proof.
  intros Ht Hp Hs. destruct (table_file_name t Ht) as [Hs' Hp'].
  apply stem_suffix_inj; [done | done | by rewrite Hs'].
Qed.

(** *** Directory listings *)

Lemma child_name_Some d p n : child_name d p = Some n ↔ p = d ++ [n].
Proof.
  unfold child_name. split.
  - destruct (last p) as [n'|]; [|done]. case_decide; [|done].
    by intros [= <-].
  - intros ->. rewrite last_snoc. by rewrite decide_True.
Qed.

Lemma listing_go d (l : list (path * node)) :
  NoDup l.*1 →
  let r := omap (λ pn, n ← child_name d pn.1; Some (n, pn.2)) l in
  NoDup r.*1 ∧ ∀ n nd, (n, nd) ∈ r ↔ (d ++ [n], nd) ∈ l.
Proof.
  induction l as [|[p nd0] l IH]; intros Hnd; simpl.
  - split; [constructor |]. intros n nd. split; by intros ?%elem_of_nil.
  - simpl in Hnd. apply NoDup_cons in Hnd as [Hp Hnd].
    destruct (IH Hnd) as [IH1 IH2]. clear IH.
    destruct (child_name d p) as [n0|] eqn:E; simpl.
    + apply child_name_Some in E as ->. split.
      * simpl. constructor; [|done]. intros Hin.
        apply list_elem_of_fmap in Hin as ([n' nd'] & -> & Hin).
        apply IH2 in Hin. apply Hp. apply list_elem_of_fmap.
        by exists (d ++ [n'], nd').
      * intros n nd. rewrite !elem_of_cons, IH2. split.
        -- intros [[= -> ->]|?]; [by left | by right].
        -- intros [[= ->%(inj (app d))%(inj (λ x, [x])) ->]|?]; [by left | by right].
    + split; [done |]. intros n nd. rewrite elem_of_cons, IH2.
      split; [by right |]. intros [[= <- <-]|?]; [|done].
      exfalso. assert (child_name d (d ++ [n]) = Some n) as E'
        by by apply child_name_Some.
      congruence.
Qed.

Lemma elem_of_listing d fs n nd :
  (n, nd) ∈ listing d fs ↔ fs !! (d ++ [n]) = Some nd.
Proof.
  unfold listing.
  destruct (listing_go d (map_to_list fs)) as [_ Hin];
    [apply NoDup_fst_map_to_list |].
  rewrite Hin. apply elem_of_map_to_list.
Qed.




Lemma is_Return_inv {A} (r : outcome A * World) :
  is_Return r.1 = true → ∃ a w', r = (Return a, w').
Proof. destruct r as [[a|e] w']; simpl; [eauto | done]. Qed.

(** *** Reading the tables of a bundle *)

Section reading.
Context `{Environment}.
Implicit Types (fd : gmap string value) (entries : list (string * node)).

Lemma length_zero_iff (c : string) : String.length c ≠ 0 ↔ c ≠ "".
Proof. destruct c; simpl; split; (done || lia || congruence). Qed.

Lemma read_tables_cons p n entries fd w :
  read_tables ((p, n) :: entries) fd w =
  match n with
  | File c =>
      if bool_decide (c ≠ "") && bool_decide (suffix p = ".txt")
         && bool_decide (is_Some (fd !! stem p))
      then match read_csv c with
           | inl e => (Raise (LibraryError e), w)
           | inr df =>
               if empty df then read_tables entries fd w
               else read_tables entries (<[stem p := PyFrame (next w)]> fd)
                      (new_frame (clean_column_names df) w).2
           end
      else read_tables entries fd w
  | Dir => read_tables entries fd w
  end.
Proof.
  destruct n as [c|]; [|done]. simpl.
  rewrite (bool_decide_ext _ _ (length_zero_iff c)).
  destruct (_ && _ && _); [|done].
  rewrite bind_run. unfold lift, from_library.
  destruct (read_csv c) as [e|df]; [done |].
  destruct (empty df); simpl; [done |]. by rewrite bind_run.
Qed.

(** What the loop can do to the slot of a table: leave it, or fill it from
    a file of the table that has bytes and parses to a non-empty frame. *)
Lemma read_tables_inv entries fd w fd' w' :
  read_tables entries fd w = (Return fd', w') →
  grows w w' ∧ disk w' = disk w ∧
  (∀ k, is_Some (fd' !! k) ↔ is_Some (fd !! k)) ∧
  ∀ t, fd' !! t = fd !! t ∨
       ∃ p c df l,
         (p, File c) ∈ entries ∧ stem p = t ∧ suffix p = ".txt" ∧ c ≠ "" ∧
         read_csv c = inr df ∧ empty df = false ∧
         fd' !! t = Some (PyFrame l) ∧
         frames w' l = clean_column_names df ∧ next w ≤ l < next w'.
Proof.
  revert fd w. induction entries as [|[p n] entries IH]; intros fd w E.
  - injection E as <- <-. split; [reflexivity | split; [done | split; [done |]]].
    intros t. by left.
  - rewrite read_tables_cons in E.
    assert (∀ fd1 w1,
      grows w w1 → disk w1 = disk w →
      (∀ k, is_Some (fd1 !! k) ↔ is_Some (fd !! k)) →
      (∀ t, fd1 !! t = fd !! t ∨
            ∃ c df, n = File c ∧ stem p = t ∧ suffix p = ".txt" ∧ c ≠ "" ∧
                    read_csv c = inr df ∧ empty df = false ∧
                    fd1 !! t = Some (PyFrame (next w)) ∧
                    frames w1 (next w) = clean_column_names df ∧
                    next w < next w1) →
      read_tables entries fd1 w1 = (Return fd', w') →
      grows w w' ∧ disk w' = disk w ∧
      (∀ k, is_Some (fd' !! k) ↔ is_Some (fd !! k)) ∧
      ∀ t, fd' !! t = fd !! t ∨
           ∃ p0 c df l,
             (p0, File c) ∈ (p, n) :: entries ∧ stem p0 = t ∧ suffix p0 = ".txt" ∧
             c ≠ "" ∧ read_csv c = inr df ∧ empty df = false ∧
             fd' !! t = Some (PyFrame l) ∧
             frames w' l = clean_column_names df ∧ next w ≤ l < next w') as Hstep.
    { intros fd1 w1 Hg Hd Hdom Hone E1.
      destruct (IH fd1 w1 E1) as (Hg' & Hd' & Hdom' & Hall).
      split; [by etrans | split; [congruence | split]].
      - intros k. by rewrite Hdom'.
      - intros t. destruct (Hall t) as [Ht|(p0 & c & df & l & Hin & ? & ? & ? & ? & ? & ? & ? & Hl)].
        + destruct (Hone t) as [Ht1|(c & df & -> & ? & ? & ? & ? & ? & Hf & Hfr & Hlt)].
          * left. congruence.
          * right. exists p, c, df, (next w).
            repeat split; try done; try lia.
            -- by left.
            -- congruence.
            -- destruct Hg' as [_ Hf']. by rewrite Hf'.
            -- destruct Hg' as [Hn' _]. lia.
        + right. exists p0, c, df, l. repeat split; try done; try lia.
          * by right.
          * destruct Hg as [Hn _]. lia. }
    destruct n as [c|]; [|apply (Hstep fd w); [reflexivity | done | done | (intros ?; by left) | done]].
    destruct (bool_decide (c ≠ "") && bool_decide (suffix p = ".txt")
              && bool_decide (is_Some (fd !! stem p))) eqn:Hcond;
      [|apply (Hstep fd w); [reflexivity | done | done | (intros ?; by left) | done]].
    apply andb_prop in Hcond as [[Hc%bool_decide_eq_true Hs%bool_decide_eq_true]%andb_prop
                                   Hk%bool_decide_eq_true].
    destruct (read_csv c) as [e|df] eqn:Er; [done |].
    destruct (empty df) eqn:Ee;
      [apply (Hstep fd w); [reflexivity | done | done | (intros ?; by left) | done] |].
    apply (Hstep (<[stem p := PyFrame (next w)]> fd) _
             (new_frame_grows (clean_column_names df) w) eq_refl); [| |done].
    + intros k. destruct (decide (k = stem p)) as [->|Hne].
      * rewrite lookup_insert_eq. split; [done | by eauto].
      * by rewrite lookup_insert_ne.
    + intros t. destruct (decide (t = stem p)) as [->|Hne].
      * right. exists c, df. rewrite lookup_insert_eq. simpl.
        rewrite fn_lookup_insert. repeat split; try done. lia.
      * left. by rewrite lookup_insert_ne.
Qed.

(** A table whose files are all without bytes or without rows keeps its
    slot. *)
Lemma read_tables_keep entries fd w fd' w' t :
  read_tables entries fd w = (Return fd', w') →
  (∀ p c, (p, File c) ∈ entries → stem p = t → suffix p = ".txt" →
     c = "" ∨ ∃ df, read_csv c = inr df ∧ empty df = true) →
  fd' !! t = fd !! t.
Proof.
  intros E Hfiles.
  destruct (read_tables_inv _ _ _ _ _ E) as (_ & _ & _ & Hall).
  destruct (Hall t) as [Ht|(p & c & df & l & Hin & Hs & Hx & Hc & Hr & He & _)];
    [done |].
  destruct (Hfiles p c Hin Hs Hx) as [->|(df' & Hr' & He')]; [done |].
  congruence.
Qed.



(** The dictionary the loop starts from: every table is [None]. *)
Lemma feed_dict_init t :
  (list_to_map ((λ t, (t, PyNone)) <$> GTFS_TABLES) : gmap string value) !! t =
  if decide (t ∈ tables) then Some PyNone else None.
Proof.
  case_decide as Ht.
  - apply elem_of_list_to_map_1'.
    + intros y [t' [[= <- <-] _]]%list_elem_of_fmap. done.
    + apply list_elem_of_fmap. exists t. split; [done |].
      by rewrite GTFS_TABLES_perm.
  - apply not_elem_of_list_to_map_1. rewrite <-list_fmap_compose.
    intros [t' [-> Hin]]%list_elem_of_fmap. apply Ht. simpl.
    by rewrite <-GTFS_TABLES_perm.
Qed.

Lemma read_dir_run path du w :
  disk w !! path = Some Dir →
  _read_feed_from_path path du w =
  (fd ← read_tables (listing path (disk w))
         (list_to_map ((λ t, (t, PyNone)) <$> GTFS_TABLES));
   __init__ (<["dist_units" := PyStr du]> fd)) w.
Proof.
  intros Hd. unfold _read_feed_from_path.
  rewrite bind_run. unfold path_exists. rewrite Hd.
  rewrite bool_decide_eq_true_2 by eauto. simpl.
  rewrite bind_run. unfold is_file. rewrite Hd.
  rewrite !bind_run. simpl.
  rewrite bind_run. cbn [iterdir]. rewrite bind_run.
  destruct (read_tables _ _ w) as [[fd|e] w1]; [|done].
  by rewrite bind_run.
Qed.

(** Loading a directory: the dictionary read, and the feed built from it. *)
Lemma read_dir_inv path du w self' w' :
  disk w !! path = Some Dir →
  _read_feed_from_path path du w = (Return self', w') →
  ∃ fd w1,
    read_tables (listing path (disk w))
      (list_to_map ((λ t, (t, PyNone)) <$> GTFS_TABLES)) w = (Return fd, w1) ∧
    __init__ (<["dist_units" := PyStr du]> fd) w1 = (Return self', w') ∧
    ∀ t, t ∈ tables → self' !! storage t = Some (default PyNone (fd !! t)).
Proof.
  intros Hd E. rewrite read_dir_run in E by done.
  apply bind_inv in E as (fd & w1 & E1 & E2).
  exists fd, w1. split; [done | split; [done |]].
  intros t Ht. destruct (init_inv _ _ _ _ E2) as (_ & Hs & _).
  destruct (tables_not_dist_units t Ht) as [Hp Hne].
  rewrite (Hs t Hp). by rewrite lookup_insert_ne.
Qed.
End reading.

(** C6.  Loading a bundle directory leaves [None] in the slot of a table
    whose file has size zero, and of a table whose file parses to a frame
    without rows. *)
Theorem empty_table_file_is_absent `{Environment} (path : path) (du : string)
    (w w' : World) (self' : Feed) (t c : string) :
  disk w !! path = Some Dir →
  t ∈ tables →
  disk w !! (path ++ [t +:+ ".txt"]) = Some (File c) →
  (c = "" ∨ ∃ df, read_csv c = inr df ∧ index_len df = 0) →
  _read_feed_from_path path du w = (Return self', w') →
  getattr self' t w' = (Return PyNone, w').
Proof.
  intros Hd Ht Hfile Hc E.
  destruct (read_dir_inv _ _ _ _ _ Hd E) as (fd & w1 & E1 & _ & Hs).
  rewrite getattr_storage, (Hs t Ht).
  rewrite (read_tables_keep _ _ _ _ _ t E1).
  - rewrite feed_dict_init. by rewrite decide_True.
  - intros p c' Hin Hst Hsu.
    apply elem_of_listing in Hin.
    rewrite (recognised_name p t Ht Hsu Hst), Hfile in Hin.
    injection Hin as <-.
    destruct Hc as [->|(df & Hr & Hl)]; [by left |].
    right. exists df. split; [done |]. unfold empty. rewrite Hl.
    by rewrite orb_true_r.
Qed.

Lemma empty_table_file_is_absent_witness :
  ∃ self' w',
    @_read_feed_from_path demo ["feed"] "km" world_bundle = (Return self', w') ∧
    getattr self' "agency" w' = (Return PyNone, w') ∧
    getattr self' "stops" w' = (Return PyNone, w').
Proof.
  destruct (is_Return_inv (@_read_feed_from_path demo ["feed"] "km" world_bundle))
    as (self' & w' & E); [by vm_compute |].
  exists self', w'. split; [done |]. split.
  - apply (@empty_table_file_is_absent demo ["feed"] "km" world_bundle w' self'
             "agency" ("agency_name" +:+ nl));
      [by vm_compute | by apply (bool_decide_unpack _); vm_compute | by vm_compute | | done].
    right. exists agency_none. split; by vm_compute.
  - apply (@empty_table_file_is_absent demo ["feed"] "km" world_bundle w' self'
             "stops" "");
      [by vm_compute | by apply (bool_decide_unpack _); vm_compute | by vm_compute | | done].
    by left.
Defined.

(** *** Scratch directories *)

Section scratch.
Context `{Environment}.
Implicit Types (fd : gmap string value) (entries : list (string * node)).

Lemma fresh_name_new (fs : gmap path node) p :
  is_Some (fs !! p) → strip_prefix (fresh_name fs) p = None.
Proof.
  intros [n Hn]. unfold fresh_name.
  set (X := list_to_set (omap head (map_to_list fs).*1) : gset string).
  destruct p as [|a p]; simpl.
  - done.
  - case_decide as Ha; [|done]. exfalso. apply (is_fresh X). rewrite Ha.
    unfold X. apply elem_of_list_to_set, list_elem_of_omap.
    exists (a :: p). split; [|done].
    apply list_elem_of_fmap. exists (a :: p, n). split; [done |].
    by apply elem_of_map_to_list.
Qed.

Lemma fresh_name_None (fs : gmap path node) : fs !! fresh_name fs = None.
Proof.
  destruct (fs !! fresh_name fs) as [n|] eqn:E; [|done].
  assert (strip_prefix (fresh_name fs) (fresh_name fs) = None) as Hs
    by (apply fresh_name_new; eauto).
  unfold fresh_name in Hs. simpl in Hs. by rewrite decide_True in Hs.
Qed.

(** A table file that does not parse makes the loop raise, with the disk
    as it was. *)
Lemma read_tables_raises entries fd w p c e :
  (p, File c) ∈ entries → c ≠ "" → suffix p = ".txt" → is_Some (fd !! stem p) →
  read_csv c = inl e →
  ∃ e' w', read_tables entries fd w = (Raise (LibraryError e'), w') ∧
           disk w' = disk w.
Proof.
  intros Hin Hc Hs. revert fd w Hin.
  induction entries as [|[p0 n0] entries IH]; intros fd w Hin Hk Hr;
    [by apply elem_of_nil in Hin |].
  rewrite read_tables_cons.
  apply elem_of_cons in Hin as [[= <- <-]|Hin].
  - rewrite !bool_decide_eq_true_2 by done. simpl. rewrite Hr. eauto.
  - assert (∀ fd1 w1, (∀ k, is_Some (fd1 !! k) ↔ is_Some (fd !! k)) →
      disk w1 = disk w →
      ∃ e' w', read_tables entries fd1 w1 = (Raise (LibraryError e'), w') ∧
               disk w' = disk w) as Hrest.
    { intros fd1 w1 Hdom Hd. destruct (IH fd1 w1) as (e' & w' & E & Hd'); try done.
      - by apply Hdom.
      - exists e', w'. split; [done | congruence]. }
    destruct n0 as [c0|]; [|by apply Hrest].
    destruct (_ && _ && _) eqn:Hcond; [|by apply Hrest].
    destruct (read_csv c0) as [e0|df0]; [eauto |].
    destruct (empty df0); [by apply Hrest |].
    apply andb_prop in Hcond as [_ Hk0%bool_decide_eq_true].
    apply Hrest; [|done].
    intros k. destruct (decide (k = stem p0)) as [->|Hne].
    + rewrite lookup_insert_eq. split; [done | by eauto].
    + by rewrite lookup_insert_ne.
Qed.

(** Loading an archive, up to the loop over the extracted entries. *)
Lemma read_archive_run path du w c :
  disk w !! path = Some (File c) →
  _read_feed_from_path path du w =
  match unpack_archive c with
  | inl e => (Raise (LibraryError e), (TemporaryDirectory w).2)
  | inr members =>
      let tmp := fresh_name (disk w) in
      match read_tables (listing tmp (disk (unpacked members w)))
              (list_to_map ((λ t, (t, PyNone)) <$> GTFS_TABLES))
              (unpacked members w) with
      | (Return fd, w1) =>
          __init__ (<["dist_units" := PyStr du]> fd) (cleanup tmp w1).2
      | (Raise e, w1) => (Raise e, w1)
      end
  end.
Proof.
  intros Hd. unfold _read_feed_from_path.
  rewrite bind_run. unfold path_exists. rewrite Hd.
  rewrite bool_decide_eq_true_2 by eauto. cbn [negb].
  rewrite bind_run. unfold is_file. rewrite Hd.
  rewrite bind_run. rewrite bind_run. cbn [TemporaryDirectory].
  rewrite bind_run. unfold shutil_unpack_archive. rewrite bind_run.
  unfold read_bytes at 1. cbn [set_disk disk].
  assert (<[fresh_name (disk w) := Dir]> (disk w) !! path = Some (File c)) as ->.
  { rewrite lookup_insert_ne; [done |]. intros E.
    pose proof (fresh_name_None (disk w)) as Hn. rewrite E, Hd in Hn. done. }
  rewrite bind_run. unfold lift, from_library.
  destruct (unpack_archive c) as [e|members]; [done |].
  unfold unpacked. cbn [TemporaryDirectory extract snd set_disk disk mret M_ret].
  rewrite bind_run. cbn [iterdir set_disk disk]. rewrite bind_run.
  destruct (read_tables _ _ _) as [[fd|e] w1]; [|done].
  by rewrite bind_run.
Qed.
End scratch.

(** C7, where the code departs from the claim.  When the archive given to
    [_read_feed_from_path] cannot be unpacked, or one of its table files
    does not parse, the call raises and the scratch directory it created is
    still on the disk: [tmp_dir.cleanup()] is only reached on the normal
    path. *)
Theorem scratch_left_after_failure `{Environment} (path : path) (du : string)
    (w : World) (c : string) :
  disk w !! path = Some (File c) →
  let tmp := fresh_name (disk w) in
  let r := _read_feed_from_path path du w in
  disk w !! tmp = None ∧
  (∀ e, unpack_archive c = inl e →
     r.1 = Raise (LibraryError e) ∧ disk r.2 !! tmp = Some Dir) ∧
  (∀ members t cbad e,
     unpack_archive c = inr members →
     t ∈ tables →
     disk (unpacked members w) !! (tmp ++ [t +:+ ".txt"]) = Some (File cbad) →
     cbad ≠ "" → read_csv cbad = inl e →
     is_Return r.1 = false ∧ disk r.2 = disk (unpacked members w)).
Proof.
  intros Hd tmp r. split; [apply fresh_name_None | split].
  - intros e He. unfold r. rewrite (read_archive_run _ _ _ _ Hd), He. simpl.
    split; [done | apply lookup_insert_eq].
  - intros members t cbad e Hm Ht Hfile Hc Hr.
    unfold r. rewrite (read_archive_run _ _ _ _ Hd), Hm. cbn zeta.
    destruct (table_file_name t Ht) as [Hst Hsu].
    destruct (read_tables_raises
                (listing (fresh_name (disk w)) (disk (unpacked members w)))
                (list_to_map ((λ t, (t, PyNone)) <$> GTFS_TABLES))
                (unpacked members w) (t +:+ ".txt") cbad e)
      as (e' & w' & -> & Hdisk); try done.
    + by apply elem_of_listing.
    + rewrite Hst, feed_dict_init, decide_True by done. eauto.
Qed.

Lemma scratch_left_after_failure_witness :
  (disk world_archives !! fresh_name (disk world_archives) = None ∧
   (@_read_feed_from_path demo ["feed.zip"] "km" world_archives).1
     = Raise (LibraryError "ReadError") ∧
   disk (@_read_feed_from_path demo ["feed.zip"] "km" world_archives).2
     !! fresh_name (disk world_archives) = Some Dir) ∧
  (is_Return (@_read_feed_from_path demo ["bad.zip"] "km" world_archives).1 = false ∧
   disk (@_read_feed_from_path demo ["bad.zip"] "km" world_archives).2
     !! fresh_name (disk world_archives) = Some Dir).
Proof.
  split.
  - pose proof (@scratch_left_after_failure demo ["feed.zip"] "km" world_archives
                  "not an archive" ltac:(by vm_compute)) as (Hnone & Hunpack & _).
    pose proof (Hunpack "ReadError" ltac:(by vm_compute)) as [Hr Hd].
    exact (conj Hnone (conj Hr Hd)).
  - pose proof (@scratch_left_after_failure demo ["bad.zip"] "km" world_archives
                  "PKstop_id,stop_name" ltac:(by vm_compute)) as (_ & _ & Hparse).
    pose proof (Hparse [(["stops.txt"], File "stop_id,stop_name")] "stops"
                  "stop_id,stop_name" "ParserError"
                  ltac:(by vm_compute)
                  ltac:(by apply (bool_decide_unpack _); vm_compute)
                  ltac:(by vm_compute)
                  ltac:(done)
                  ltac:(by vm_compute)) as [Hr Hd].
    split; [exact Hr |].
    exact (eq_trans (f_equal (λ d, d !! fresh_name (disk world_archives)) Hd)
             ltac:(by vm_compute)).
Defined.

(** *** Resolving a path or URL *)

Section resolving.
Context `{Environment}.
Implicit Types (fd kwargs : gmap string value) (entries : list (string * node)).










End resolving.




(** *** Writing to a directory and loading it again *)



Section round_trip.
Context `{Environment}.
Implicit Types (self other : Feed) (fd : gmap string value).








End round_trip.

Section round_trip_load.
Context `{Environment}.
Implicit Types (self other : Feed) (fd : gmap string value).



End round_trip_load.



